(** * Task Manager API (index.js): the in-memory task store and its handlers

    The Express application of [index.js] keeps one module-level array
    [tasks] and serves five routes over it.  The array is threaded here as
    an explicit state [list Task]; every handler is a function from the
    state before the request to the state after it and the response sent.
    A handler that throws is caught by the error-handling middleware at the
    end of the file, which is part of the model ([serve]). *)

From Stdlib Require Import ZArith QArith Ascii String.
From stdpp Require Import base option list gmap strings pretty.

Set Warnings "-register-all".
Local Open Scope string_scope.
Local Open Scope list_scope.
Local Open Scope Z_scope.

(** ** Values *)

(** What [express.json()] leaves in [req.body]: a parsed JSON value, or
    [undefined] when no body was parsed.  A JSON object is a finite map from
    keys to values ([JSON.parse] keeps the last binding of a repeated key). *)
Inductive JsVal : Type :=
  | JUndefined
  | JNull
  | JBool (b : bool)
  | JNum (q : Q)
  | JStr (s : string)
  | JArr (items : list JsVal)
  | JObj (fields : gmap string JsVal).

(** The [typeof] operator. *)
Definition typeof (v : JsVal) : string :=
  match v with
  | JUndefined => "undefined"
  | JNull => "object"
  | JBool _ => "boolean"
  | JNum _ => "number"
  | JStr _ => "string"
  | JArr _ => "object"
  | JObj _ => "object"
  end.

(** Property read [v.key] on a value that is neither [undefined] nor [null].
    Only the keys [title] and [completed] are ever read: an array, a string,
    a number or a boolean has no own or inherited property of either name. *)
Definition get_prop (v : JsVal) (key : string) : JsVal :=
  match v with
  | JObj fields => default JUndefined (fields !! key)
  | _ => JUndefined
  end.

(** Outcome of running a handler body: a value, or a thrown exception
    (passed by Express to the error-handling middleware). *)
Inductive Result (A : Type) : Type :=
  | Ok (a : A)
  | Throw (err : string).
Arguments Ok {A} a.
Arguments Throw {A} err.

Definition bind {A B} (r : Result A) (k : A → Result B) : Result B :=
  match r with
  | Ok a => k a
  | Throw e => Throw e
  end.

Notation "'let%js' p ':=' r 'in' k" :=
  (bind r (λ p, k))
  (at level 10, p pattern, r at level 100, k at level 200,
   format "'let%js'  p  ':='  r  'in'  '/' k").

(** [const { title, completed } = req.body]: destructuring [undefined] or
    [null] throws a TypeError, any other value yields the two properties. *)
Definition destructure (body : JsVal) : Result (JsVal * JsVal) :=
  match body with
  | JUndefined | JNull => Throw "TypeError"
  | _ => Ok (get_prop body "title", get_prop body "completed")
  end.

(** The guard of both writing handlers:
    [typeof title !== 'string' || typeof completed !== 'boolean']. *)
Definition invalid_data (title completed : JsVal) : bool :=
  negb (String.eqb (typeof title) "string")
  || negb (String.eqb (typeof completed) "boolean").

(** ** Tasks and responses *)

Record Task : Type := mkTask {
  id : Z;
  title : string;
  completed : bool
}.

(** The [data] member of a response: one task, or an array of tasks. *)
Inductive Data : Type :=
  | DataTask (t : Task)
  | DataTasks (ts : list Task).

(** The object handed to [res.json]; [data] is absent on failures. *)
Record Envelope : Type := mkEnvelope {
  success : bool;
  data : option Data;
  message : string
}.

Record Response : Type := mkResponse {
  status : Z;
  json : Envelope
}.

Definition ok_envelope (d : Data) (msg : string) : Envelope :=
  {| success := true; data := Some d; message := msg |}.

Definition fail_envelope (msg : string) : Envelope :=
  {| success := false; data := None; message := msg |}.

Definition not_found : Response :=
  {| status := 404; json := fail_envelope "Task not found" |}.

Definition invalid : Response :=
  {| status := 400; json := fail_envelope "Invalid data" |}.

(** In-memory task storage at start-up. *)
Definition seed : list Task :=
  [ mkTask 1 "Learn Express" false;
    mkTask 2 "Build a REST API" false;
    mkTask 3 "Test API with Postman" true;
    mkTask 4 "Add Swagger Documentation" false;
    mkTask 5 "Deploy to Server" false ].

(** ** [parseInt] on a path parameter *)

(** [parseInt(string)] with no radix, after ECMA-262: skip leading white
    space, read an optional sign, switch to radix 16 after a [0x] or [0X]
    prefix, then read the longest run of digits of the radix; no digit at all
    is [NaN], here [None].  A character is a code unit below 256, so of the
    white space of the standard the model has TAB, LF, VT, FF, CR, SP and
    NBSP.  The value is kept as the exact integer; the Number that JavaScript
    returns is the double nearest to it, which is that same integer as long
    as it has at most 15 decimal digits. *)
Definition code (c : ascii) : Z := Z.of_nat (nat_of_ascii c).

Definition is_white (c : ascii) : bool :=
  let n := code c in
  ((9 <=? n) && (n <=? 13)) || (n =? 32) || (n =? 160).

Fixpoint trim_start (s : string) : string :=
  match s with
  | String c s' => if is_white c then trim_start s' else s
  | EmptyString => EmptyString
  end.

Definition digit_value (radix : Z) (c : ascii) : option Z :=
  let n := code c in
  let d := if (48 <=? n) && (n <=? 57) then n - 48
           else if (97 <=? n) && (n <=? 122) then n - 87
           else if (65 <=? n) && (n <=? 90) then n - 55
           else radix in
  if d <? radix then Some d else None.

(** The digits read so far are worth [acc] ([None]: none read yet). *)
Fixpoint parse_digits (radix : Z) (s : string) (acc : option Z) : option Z :=
  match s with
  | String c s' =>
      match digit_value radix c with
      | Some d => parse_digits radix s' (Some (radix * default 0 acc + d))
      | None => acc
      end
  | EmptyString => acc
  end.

Definition strip_sign (s : string) : Z * string :=
  match s with
  | String "-" s' => (-1, s')
  | String "+" s' => (1, s')
  | _ => (1, s)
  end.

Definition strip_prefix (s : string) : Z * string :=
  match s with
  | String "0" (String "x" s') => (16, s')
  | String "0" (String "X" s') => (16, s')
  | _ => (10, s)
  end.

Definition parseInt (s : string) : option Z :=
  let (sign, s1) := strip_sign (trim_start s) in
  let (radix, s2) := strip_prefix s1 in
  (λ n, sign * n) <$> parse_digits radix s2 None.

(** ** Array methods *)

(** The callback of every lookup: [t => t.id === parseInt(req.params.id)].
    [NaN] is strictly equal to nothing. *)
Definition id_matches (param : string) (t : Task) : bool :=
  match parseInt param with
  | Some n => id t =? n
  | None => false
  end.

(** [tasks.find(p)]: the first element satisfying [p], [None] for
    [undefined].  The result is a reference into the array: it comes with the
    index of the slot holding the object, through which [put] writes. *)
Definition find (p : Task → bool) (tasks : list Task) : option (nat * Task) :=
  list_find (λ t, Is_true (p t)) tasks.

(** [tasks.findIndex(p)]: the index of that element, or [-1]. *)
Definition findIndex (p : Task → bool) (tasks : list Task) : Z :=
  match list_find (λ t, Is_true (p t)) tasks with
  | Some (i, _) => Z.of_nat i
  | None => -1
  end.

(** [tasks.splice(start, deleteCount)]: the removed elements and the array
    that is left. *)
Definition splice (start deleteCount : nat) (tasks : list Task)
  : list Task * list Task :=
  (take deleteCount (drop start tasks),
   take start tasks ++ drop (start + deleteCount) tasks).

(** ** Route handlers *)

(** [app.get('/api/tasks')] *)
Definition get_tasks (tasks : list Task) : Result (list Task * Response) :=
  Ok (tasks,
      {| status := 200;
         json := ok_envelope (DataTasks tasks) "Tasks fetched successfully" |}).

(** [app.get('/api/tasks/:id')] *)
Definition get_task (param : string) (tasks : list Task)
  : Result (list Task * Response) :=
  match find (id_matches param) tasks with
  | None => Ok (tasks, not_found)
  | Some (_, task) =>
      Ok (tasks,
          {| status := 200;
             json := ok_envelope (DataTask task) "Task fetched successfully" |})
  end.

(** [app.post('/api/tasks')].  Past the guard [title] is a string and
    [completed] a boolean, so the last arm of the [match] is never taken
    ([invalid_data_false]). *)
Definition post_task (body : JsVal) (tasks : list Task)
  : Result (list Task * Response) :=
  let%js (title, completed) := destructure body in
  if invalid_data title completed then Ok (tasks, invalid)
  else
    match title, completed with
    | JStr title, JBool completed =>
        let newTask :=
          {| id := Z.of_nat (length tasks) + 1;
             title := title; completed := completed |} in
        Ok (tasks ++ [newTask],
            {| status := 201;
               json := ok_envelope (DataTask newTask)
                         "Task created successfully" |})
    | _, _ => Ok (tasks, invalid)
    end.

(** [app.put('/api/tasks/:id')].  The two assignments write through the
    reference returned by [find], that is into slot [i] of the array. *)
Definition put_task (param : string) (body : JsVal) (tasks : list Task)
  : Result (list Task * Response) :=
  match find (id_matches param) tasks with
  | None => Ok (tasks, not_found)
  | Some (i, task) =>
      let%js (title, completed) := destructure body in
      if invalid_data title completed then Ok (tasks, invalid)
      else
        match title, completed with
        | JStr title, JBool completed =>
            let task :=
              {| id := id task; title := title; completed := completed |} in
            Ok (<[i := task]> tasks,
                {| status := 200;
                   json := ok_envelope (DataTask task)
                             "Task updated successfully" |})
        | _, _ => Ok (tasks, invalid)
        end
  end.

(** [app.delete('/api/tasks/:id')] *)
Definition delete_task (param : string) (tasks : list Task)
  : Result (list Task * Response) :=
  let taskIndex := findIndex (id_matches param) tasks in
  if taskIndex =? -1 then Ok (tasks, not_found)
  else
    let (deletedTask, tasks) := splice (Z.to_nat taskIndex) 1 tasks in
    Ok (tasks,
        {| status := 200;
           json := ok_envelope (DataTasks deletedTask)
                     "Task deleted successfully" |}).

(** ** The application *)

Inductive Request : Type :=
  | GetTasks
  | GetTask (param : string)
  | PostTask (body : JsVal)
  | PutTask (param : string) (body : JsVal)
  | DeleteTask (param : string).

Definition route (req : Request) (tasks : list Task)
  : Result (list Task * Response) :=
  match req with
  | GetTasks => get_tasks tasks
  | GetTask param => get_task param tasks
  | PostTask body => post_task body tasks
  | PutTask param body => put_task param body tasks
  | DeleteTask param => delete_task param tasks
  end.

(** One request against the store: the routed handler, and the error
    handling middleware for whatever it throws.  No handler writes to
    [tasks] before the point where it can throw. *)
Definition serve (req : Request) (tasks : list Task) : list Task * Response :=
  match route req tasks with
  | Ok r => r
  | Throw _ =>
      (tasks,
       {| status := 500; json := fail_envelope "Something went wrong!" |})
  end.

(** The store after a sequence of requests. *)
Definition run (reqs : list Request) (tasks : list Task) : list Task :=
  foldl (λ ts req, fst (serve req ts)) tasks reqs.

(** The states of the store the running server can be in. *)
Inductive reachable : list Task → Prop :=
  | reachable_seed : reachable seed
  | reachable_serve req tasks :
      reachable tasks → reachable (fst (serve req tasks)).

(** A request body [{ title, completed }]. *)
Definition payload (title : string) (completed : bool) : JsVal :=
  JObj (<["title" := JStr title]> (<["completed" := JBool completed]> ∅)).

(** The path parameter names a task of the store: some task has the id
    that [parseInt] reads from it. *)
Definition present (param : string) (tasks : list Task) : Prop :=
  Exists (λ t, parseInt param = Some (id t)) tasks.

#[global] Instance present_dec param tasks : Decision (present param tasks).
Proof. unfold present. apply _. Defined.

(** The ids of the store, in order. *)
Definition ids (tasks : list Task) : list Z := id <$> tasks.

(** Does the string begin with a character satisfying [p]? *)
Definition starts_with (p : ascii → bool) (s : string) : bool :=
  match s with
  | String c _ => p c
  | EmptyString => false
  end.

Definition is_decimal (c : ascii) : bool := bool_decide (is_Some (digit_value 10 c)).

Definition is_x (c : ascii) : bool :=
  bool_decide (c = "x"%char ∨ c = "X"%char).

(** As long as nothing was deleted, the task at index [i] has id [i + 1]. *)
Definition numbered (tasks : list Task) : Prop :=
  ∀ i t, tasks !! i = Some t → id t = Z.of_nat i + 1.

Definition is_delete (req : Request) : bool :=
  match req with DeleteTask _ => true | _ => false end.

(** The store after [DELETE /api/tasks/3] and a create on the seed. *)
Definition collided : list Task :=
  run [DeleteTask "3"; PostTask (payload "X" false)] seed.

(** [undefined] and [null], the two values that cannot be destructured. *)
Definition nullish (v : JsVal) : bool :=
  match v with
  | JUndefined | JNull => true
  | _ => false
  end.

(** What the error-handling middleware sends. *)
Definition server_error : Response :=
  {| status := 500; json := fail_envelope "Something went wrong!" |}.

(** How many tasks of the store have id [n]. *)
Definition count_id (n : Z) (tasks : list Task) : nat :=
  length (filter (λ t, id t = n) tasks).

Definition is_sign (c : ascii) : bool :=
  bool_decide (c = "+"%char ∨ c = "-"%char).

(** ** The payload guard *)

Lemma typeof_string v : typeof v = "string" ↔ ∃ s, v = JStr s.
Proof. destruct v; simpl; split; try discriminate; eauto; by intros [? ?]. Qed.

Lemma typeof_boolean v : typeof v = "boolean" ↔ ∃ b, v = JBool b.
Proof. destruct v; simpl; split; try discriminate; eauto; by intros [? ?]. Qed.

Lemma invalid_data_true title completed :
  invalid_data title completed = true ↔
  typeof title ≠ "string" ∨ typeof completed ≠ "boolean".
Proof.
  unfold invalid_data. rewrite orb_true_iff, !negb_true_iff.
  by rewrite !String.eqb_neq.
Qed.

Lemma invalid_data_false title completed :
  invalid_data title completed = false ↔
  ∃ s b, title = JStr s ∧ completed = JBool b.
Proof.
  unfold invalid_data. rewrite orb_false_iff, !negb_false_iff.
  rewrite !String.eqb_eq, typeof_string, typeof_boolean.
  split; [intros [[s ->] [b ->]] | intros (s & b & -> & ->)]; eauto.
Qed.

(** ** Looking a task up *)

Lemma id_matches_true param t :
  id_matches param t = true ↔ parseInt param = Some (id t).
Proof.
  unfold id_matches. destruct (parseInt param) as [n|]; [|done].
  rewrite Z.eqb_eq. naive_solver.
Qed.

Lemma id_matches_NaN param t : parseInt param = None → id_matches param t = false.
Proof. unfold id_matches. by intros ->. Qed.

Lemma find_Some param tasks i t :
  find (id_matches param) tasks = Some (i, t) ↔
  tasks !! i = Some t ∧ parseInt param = Some (id t) ∧
  ∀ j t', tasks !! j = Some t' → (j < i)%nat → parseInt param ≠ Some (id t').
Proof.
  unfold find. rewrite list_find_Some.
  rewrite Is_true_true, id_matches_true.
  split; intros (?&?&H); split_and!; try done; intros j t' ? ?.
  - rewrite <-id_matches_true, <-Is_true_true. eauto.
  - rewrite Is_true_true, id_matches_true. eauto.
Qed.

Lemma find_None param tasks :
  find (id_matches param) tasks = None ↔ ¬ present param tasks.
Proof.
  unfold find, present. rewrite list_find_None, <-Forall_Exists_neg.
  apply Forall_proper; [|done]. intros t.
  by rewrite Is_true_true, id_matches_true.
Qed.

Lemma find_present param tasks :
  present param tasks → ∃ i t, find (id_matches param) tasks = Some (i, t).
Proof.
  intros H. destruct (find (id_matches param) tasks) as [[i t]|] eqn:E; [eauto|].
  by apply find_None in E.
Qed.

Lemma findIndex_find p tasks :
  findIndex p tasks = from_option (λ r, Z.of_nat (fst r)) (-1) (find p tasks).
Proof. unfold findIndex, find. by destruct (list_find _ _) as [[??]|]. Qed.

Lemma parseInt_NaN_absent param tasks :
  parseInt param = None → ¬ present param tasks.
Proof.
  unfold present. rewrite Exists_exists. intros -> (?&?&?). discriminate.
Qed.

(** ** [parseInt] on sample parameters *)

Example parseInt_digits : parseInt "42" = Some 42.
Proof. reflexivity. Qed.

Example parseInt_trailing : parseInt "3abc" = Some 3.
Proof. reflexivity. Qed.

Example parseInt_signed_hex : parseInt "  -0x1F/" = Some (-31).
Proof. reflexivity. Qed.

Example parseInt_no_digit : parseInt "abc" = None.
Proof. reflexivity. Qed.

Example parseInt_bare_prefix : parseInt "0x" = None.
Proof. reflexivity. Qed.

Example parseInt_inner_space : parseInt "- 3" = None.
Proof. reflexivity. Qed.

(** ** [parseInt] reads back a decimal numeral

    [pretty n] is the decimal numeral of [n], which is what [String(n)]
    gives for an integer id. *)

Lemma digit_value_pretty_N_char (d : N) :
  (d < 10)%N → digit_value 10 (pretty_N_char d) = Some (Z.of_N d).
Proof.
  intros Hd.
  assert (d = 0 ∨ d = 1 ∨ d = 2 ∨ d = 3 ∨ d = 4 ∨ d = 5 ∨ d = 6 ∨ d = 7
          ∨ d = 8 ∨ d = 9)%N as Hcases by lia.
  destruct_or!; subst d; reflexivity.
Qed.

Lemma pretty_N_go_app (x : N) (s r : string) :
  pretty_N_go x s +:+ r = pretty_N_go x (s +:+ r).
Proof.
  revert s. induction (N.lt_wf_0 x) as [x _ IH]; intros s.
  destruct (decide (0 < x)%N) as [Hx|Hx].
  - rewrite (pretty_N_go_step x s), (pretty_N_go_step x (s +:+ r)) by done.
    rewrite IH; [done|]. by apply N.div_lt.
  - assert (x = 0%N) as -> by lia. by rewrite !pretty_N_go_0.
Qed.

Lemma parse_digits_pretty_N_go (x : N) (s : string) :
  (0 < x)%N →
  parse_digits 10 (pretty_N_go x s) None
  = parse_digits 10 s (Some (Z.of_N x)).
Proof.
  revert s. induction (N.lt_wf_0 x) as [x _ IH]; intros s Hx.
  rewrite pretty_N_go_step by done.
  pose proof (N.div_mod x 10 ltac:(done)) as Hdm.
  pose proof (N.mod_lt x 10 ltac:(done)) as Hlt.
  destruct (decide (0 < x `div` 10)%N) as [Hq|Hq].
  - rewrite IH; [|by apply N.div_lt|done]. simpl.
    rewrite digit_value_pretty_N_char by done. simpl.
    do 2 f_equal. lia.
  - assert ((x `div` 10)%N = 0%N) as Hq0 by lia.
    rewrite Hq0, pretty_N_go_0. simpl.
    rewrite digit_value_pretty_N_char by done. simpl.
    do 2 f_equal. lia.
Qed.

(** The numeral of a positive number begins with one of the digits 1-9. *)
Lemma pretty_N_go_head (x : N) (s : string) :
  (0 < x)%N →
  ∃ d s', (0 < d < 10)%N ∧ pretty_N_go x s = String (pretty_N_char d) s'.
Proof.
  revert s. induction (N.lt_wf_0 x) as [x _ IH]; intros s Hx.
  rewrite pretty_N_go_step by done.
  pose proof (N.div_mod x 10 ltac:(done)) as Hdm.
  pose proof (N.mod_lt x 10 ltac:(done)) as Hlt.
  destruct (decide (0 < x `div` 10)%N) as [Hq|Hq].
  - apply IH; [by apply N.div_lt|done].
  - assert ((x `div` 10)%N = 0%N) as Hq0 by lia.
    rewrite Hq0, pretty_N_go_0. exists (x `mod` 10)%N, s. split; [lia|done].
Qed.

Lemma parse_digits_stop radix s acc :
  starts_with (λ c, bool_decide (is_Some (digit_value radix c))) s = false →
  parse_digits radix s acc = acc.
Proof.
  destruct s as [|c s]; [done|]. simpl. intros H%bool_decide_eq_false.
  destruct (digit_value radix c); [|done]. by destruct H.
Qed.

(** A numeral that begins with a digit 1-9 has no white space, sign or
    [0x] prefix for [parseInt] to strip. *)
Lemma parseInt_nonzero_head (d : N) (s : string) :
  (0 < d < 10)%N →
  parseInt (String (pretty_N_char d) s)
  = parse_digits 10 (String (pretty_N_char d) s) None.
Proof.
  intros Hd.
  assert (d = 1 ∨ d = 2 ∨ d = 3 ∨ d = 4 ∨ d = 5 ∨ d = 6 ∨ d = 7
          ∨ d = 8 ∨ d = 9)%N as Hcases by lia.
  unfold parseInt.
  destruct_or!; subst d; simpl;
    (destruct (parse_digits _ _ _) as [z|]; simpl; [f_equal; lia|done]).
Qed.

Lemma parseInt_minus (d : N) (s : string) :
  (0 < d < 10)%N →
  parseInt (String "-" (String (pretty_N_char d) s))
  = Z.opp <$> parseInt (String (pretty_N_char d) s).
Proof.
  intros Hd.
  assert (d = 1 ∨ d = 2 ∨ d = 3 ∨ d = 4 ∨ d = 5 ∨ d = 6 ∨ d = 7
          ∨ d = 8 ∨ d = 9)%N as Hcases by lia.
  unfold parseInt.
  destruct_or!; subst d; simpl;
    (destruct (parse_digits _ _ _) as [z|]; simpl; [f_equal; lia|done]).
Qed.

Lemma parseInt_pretty_pos (p : positive) (rest : string) :
  starts_with is_decimal rest = false →
  parseInt (pretty (Z.pos p) +:+ rest) = Some (Z.pos p).
Proof.
  intros Hrest. unfold pretty, pretty_Z, pretty, pretty_positive, pretty, pretty_N.
  rewrite decide_False by done.
  rewrite pretty_N_go_app. change ("" +:+ rest) with rest.
  destruct (pretty_N_go_head (N.pos p) rest) as (d & s' & Hd & E); [done|].
  rewrite E, parseInt_nonzero_head by done. rewrite <-E.
  rewrite parse_digits_pretty_N_go by done.
  by rewrite parse_digits_stop.
Qed.

Lemma append_empty_r (s : string) : s +:+ "" = s.
Proof.
  induction s as [|c s IH]; [done|].
  change (String c (s +:+ "") = String c s). by f_equal.
Qed.

Lemma parseInt_pretty (n : Z) (rest : string) :
  starts_with is_decimal rest = false →
  (n = 0 → starts_with is_x rest = false) →
  parseInt (pretty n +:+ rest) = Some n.
Proof.
  intros Hrest Hx. destruct n as [|p|p].
  - specialize (Hx eq_refl). destruct rest as [|c rest]; [done|].
    simpl in Hrest, Hx.
    apply bool_decide_eq_false in Hrest. apply bool_decide_eq_false in Hx.
    change (pretty 0 +:+ String c rest) with (String "0" (String c rest)).
    unfold parseInt.
    destruct c as [[] [] [] [] [] [] [] []];
      first [ by destruct Hx; auto
            | by destruct Hrest; vm_compute; eexists
            | reflexivity ].
  - by apply parseInt_pretty_pos.
  - pose proof (parseInt_pretty_pos p rest Hrest) as Hp.
    change (pretty (Z.neg p) +:+ rest)
      with (String "-" (pretty (Z.pos p) +:+ rest)).
    destruct (pretty_N_go_head (N.pos p) "") as (d & s' & Hd & E); [done|].
    assert (pretty (Z.pos p) = String (pretty_N_char d) s') as E'.
    { unfold pretty, pretty_Z, pretty, pretty_positive, pretty, pretty_N.
      by rewrite decide_False. }
    rewrite E' in Hp |- *.
    change (String (pretty_N_char d) s' +:+ rest)
      with (String (pretty_N_char d) (s' +:+ rest)) in Hp |- *.
    rewrite parseInt_minus by done. by rewrite Hp.
Qed.

(** ** Create *)

Lemma destructure_Ok body :
  body ≠ JUndefined → body ≠ JNull →
  destructure body = Ok (get_prop body "title", get_prop body "completed").
Proof. by destruct body. Qed.

Lemma get_prop_parsed body key v :
  get_prop body key = v → v ≠ JUndefined → body ≠ JUndefined ∧ body ≠ JNull.
Proof. destruct body; simpl; intros <- ?; done. Qed.

Lemma post_task_valid body tasks s b :
  get_prop body "title" = JStr s → get_prop body "completed" = JBool b →
  post_task body tasks =
    Ok (tasks ++ [mkTask (Z.of_nat (length tasks) + 1) s b],
        {| status := 201;
           json := ok_envelope
                     (DataTask (mkTask (Z.of_nat (length tasks) + 1) s b))
                     "Task created successfully" |}).
Proof.
  intros Ht Hc. unfold post_task.
  destruct (get_prop_parsed _ _ _ Ht) as [? ?]; [done|].
  rewrite destructure_Ok by done. simpl. by rewrite Ht, Hc.
Qed.

Lemma post_task_invalid body tasks :
  body ≠ JUndefined → body ≠ JNull →
  invalid_data (get_prop body "title") (get_prop body "completed") = true →
  post_task body tasks = Ok (tasks, invalid).
Proof.
  intros ? ? Hinv. unfold post_task.
  rewrite destructure_Ok by done. simpl. by rewrite Hinv.
Qed.

(** With no parsed body the destructuring throws and the middleware
    answers 500; the store is left as it was. *)
Lemma post_task_no_body tasks :
  serve (PostTask JUndefined) tasks =
    (tasks, {| status := 500; json := fail_envelope "Something went wrong!" |}).
Proof. reflexivity. Qed.

(** C2: a create whose payload has a string [title] and a boolean
    [completed] appends exactly one task, with id = length before + 1 (the
    ids already in the store play no part) and the title and completed
    given; the store grows by exactly one, and the answer is 201 with that
    task in a success envelope. *)
Theorem create_appends_length_plus_one (tasks : list Task) (body : JsVal)
    (s : string) (b : bool) :
  get_prop body "title" = JStr s →
  get_prop body "completed" = JBool b →
  let newTask := mkTask (Z.of_nat (length tasks) + 1) s b in
  serve (PostTask body) tasks =
    (tasks ++ [newTask],
     {| status := 201;
        json := {| success := true; data := Some (DataTask newTask);
                   message := "Task created successfully" |} |})
  ∧ length (fst (serve (PostTask body) tasks)) = S (length tasks)
  ∧ (∀ i t, tasks !! i = Some t →
       fst (serve (PostTask body) tasks) !! i = Some t)
  ∧ fst (serve (PostTask body) tasks) !! length tasks = Some newTask.
Proof.
  intros Ht Hc newTask. unfold serve, route.
  rewrite (post_task_valid _ _ _ _ Ht Hc). simpl.
  split_and!; [done| |..].
  - rewrite length_app. simpl. lia.
  - intros i t Hi. by apply lookup_app_l_Some.
  - rewrite lookup_app_r by done. by rewrite Nat.sub_diag.
Qed.

Lemma create_appends_length_plus_one_witness :
  serve (PostTask (payload "X" false)) seed =
    (seed ++ [mkTask 6 "X" false],
     {| status := 201;
        json := {| success := true;
                   data := Some (DataTask (mkTask 6 "X" false));
                   message := "Task created successfully" |} |}).
Proof.
  apply (create_appends_length_plus_one seed (payload "X" false) "X" false);
    reflexivity.
Defined.

(** C6: a create whose payload has a [title] that is not a string or a
    [completed] that is not a boolean (a missing field reads as
    [undefined]) is answered 400 "Invalid data" and leaves the store, and so
    its length, unchanged. *)
Theorem create_invalid_rejected (tasks : list Task) (body : JsVal) :
  body ≠ JUndefined → body ≠ JNull →
  typeof (get_prop body "title") ≠ "string"
    ∨ typeof (get_prop body "completed") ≠ "boolean" →
  serve (PostTask body) tasks =
    (tasks,
     {| status := 400;
        json := {| success := false; data := None;
                   message := "Invalid data" |} |}).
Proof.
  intros ? ? Hinv%invalid_data_true. unfold serve, route.
  by rewrite post_task_invalid.
Qed.

Lemma create_invalid_rejected_witness :
  serve (PostTask (JObj {["title" := JStr "X"]})) seed =
    (seed,
     {| status := 400;
        json := {| success := false; data := None;
                   message := "Invalid data" |} |}).
Proof.
  apply (create_invalid_rejected seed (JObj {["title" := JStr "X"]}));
    [discriminate | discriminate | right; vm_compute; discriminate].
Defined.

(** C10: the task stored and returned by a create is built from the
    payload's [title] and [completed] and the length of the store alone: it
    has the three fields of [Task], and whatever else the payload carries,
    an [id] included, changes neither the task nor its id. *)
Theorem create_ignores_other_fields (tasks : list Task)
    (fields extra : gmap string JsVal) (s : string) (b : bool) :
  fields !! "title" = Some (JStr s) →
  fields !! "completed" = Some (JBool b) →
  extra !! "title" = None →
  extra !! "completed" = None →
  let newTask := mkTask (Z.of_nat (length tasks) + 1) s b in
  serve (PostTask (JObj (extra ∪ fields))) tasks =
    (tasks ++ [newTask],
     {| status := 201;
        json := {| success := true; data := Some (DataTask newTask);
                   message := "Task created successfully" |} |})
  ∧ serve (PostTask (JObj (extra ∪ fields))) tasks
    = serve (PostTask (payload s b)) tasks.
Proof.
  intros Ht Hc Het Hec newTask.
  assert (get_prop (JObj (extra ∪ fields)) "title" = JStr s) as Ht'.
  { simpl. rewrite lookup_union_r by done. by rewrite Ht. }
  assert (get_prop (JObj (extra ∪ fields)) "completed" = JBool b) as Hc'.
  { simpl. rewrite lookup_union_r by done. by rewrite Hc. }
  unfold serve, route.
  rewrite (post_task_valid _ _ _ _ Ht' Hc').
  by rewrite (post_task_valid (payload s b) tasks s b).
Qed.

Lemma create_ignores_other_fields_witness :
  serve (PostTask (JObj ({["id" := JNum 42; "owner" := JStr "me"]}
                         ∪ {["title" := JStr "X"; "completed" := JBool true]})))
        seed =
    (seed ++ [mkTask 6 "X" true],
     {| status := 201;
        json := {| success := true;
                   data := Some (DataTask (mkTask 6 "X" true));
                   message := "Task created successfully" |} |}).
Proof.
  apply (create_ignores_other_fields seed
           {["title" := JStr "X"; "completed" := JBool true]}
           {["id" := JNum 42; "owner" := JStr "me"]} "X" true);
    vm_compute; reflexivity.
Defined.

(** ** Get by id *)

Lemma get_task_found param tasks i t :
  find (id_matches param) tasks = Some (i, t) →
  serve (GetTask param) tasks =
    (tasks,
     {| status := 200;
        json := ok_envelope (DataTask t) "Task fetched successfully" |}).
Proof. intros E. unfold serve, route, get_task. by rewrite E. Qed.

Lemma get_task_missing param tasks :
  find (id_matches param) tasks = None →
  serve (GetTask param) tasks = (tasks, not_found).
Proof. intros E. unfold serve, route, get_task. by rewrite E. Qed.

(** Where ids are pairwise distinct, the task a lookup returns is the only
    one with its id. *)
Lemma unique_id_unique_task (tasks : list Task) i j t t' :
  NoDup (ids tasks) → tasks !! i = Some t → tasks !! j = Some t' →
  id t = id t' → i = j ∧ t = t'.
Proof.
  intros Hnd Hi Hj Heq.
  assert (i = j) as ->.
  { eapply NoDup_lookup; [exact Hnd| |]; unfold ids; rewrite list_lookup_fmap.
    - by rewrite Hi.
    - rewrite Hj. simpl. by rewrite Heq. }
  split; [done|congruence].
Qed.

(** C5: when the path parameter parses to the id of a task of the store,
    as the decimal numeral of the id of any task of the store does, GET
    answers 200 with success = true and that task (the first of the store
    with this id) and leaves the store alone; when no task has the parsed
    id, and in particular when the parameter does not parse to an integer
    at all, GET answers 404 with success = false. *)
Theorem get_by_id (tasks : list Task) (param : string) :
  (∀ t, t ∈ tasks → present (pretty (id t)) tasks)
  ∧ (present param tasks →
     ∃ i t, tasks !! i = Some t ∧ parseInt param = Some (id t)
       ∧ (∀ j t', tasks !! j = Some t' → (j < i)%nat → id t' ≠ id t)
       ∧ serve (GetTask param) tasks =
           (tasks,
            {| status := 200;
               json := {| success := true; data := Some (DataTask t);
                          message := "Task fetched successfully" |} |}))
  ∧ (¬ present param tasks →
       serve (GetTask param) tasks =
         (tasks,
          {| status := 404;
             json := {| success := false; data := None;
                        message := "Task not found" |} |}))
  ∧ (parseInt param = None →
       serve (GetTask param) tasks =
         (tasks,
          {| status := 404;
             json := {| success := false; data := None;
                        message := "Task not found" |} |})).
Proof.
  split_and!.
  - intros t Hin. apply Exists_exists. exists t. split; [done|].
    rewrite <-(append_empty_r (pretty (id t))). by apply parseInt_pretty.
  - intros (i & t & E)%find_present.
    pose proof E as (Hi & Hp & Hfirst)%find_Some.
    exists i, t. split_and!; [done..| |by eapply get_task_found].
    intros j t' Hj Hlt Heq. apply (Hfirst j t' Hj Hlt). by rewrite Heq.
  - intros E%find_None. by apply get_task_missing.
  - intros E%(parseInt_NaN_absent _ tasks)%find_None. by apply get_task_missing.
Qed.

Lemma get_by_id_witness :
  present (pretty 3) seed
  ∧ (∃ i t, seed !! i = Some t ∧ parseInt "3" = Some (id t)
     ∧ (∀ j t', seed !! j = Some t' → (j < i)%nat → id t' ≠ id t)
     ∧ serve (GetTask "3") seed =
         (seed,
          {| status := 200;
             json := {| success := true; data := Some (DataTask t);
                        message := "Task fetched successfully" |} |}))
  ∧ serve (GetTask "9") seed =
      (seed,
       {| status := 404;
          json := {| success := false; data := None;
                     message := "Task not found" |} |})
  ∧ serve (GetTask "abc") seed =
      (seed,
       {| status := 404;
          json := {| success := false; data := None;
                     message := "Task not found" |} |}).
Proof.
  split_and!.
  - apply (proj1 (get_by_id seed "3") (mkTask 3 "Test API with Postman" true)).
    apply (list_elem_of_lookup_2 _ 2%nat). reflexivity.
  - apply (proj1 (proj2 (get_by_id seed "3"))).
    apply (bool_decide_unpack _). vm_compute. exact I.
  - apply (proj1 (proj2 (proj2 (get_by_id seed "9")))).
    apply (bool_decide_unpack _). vm_compute. exact I.
  - apply (proj2 (proj2 (proj2 (get_by_id seed "abc")))). reflexivity.
Defined.

(** ** Update *)

Lemma put_task_missing param body tasks :
  find (id_matches param) tasks = None →
  serve (PutTask param body) tasks = (tasks, not_found).
Proof. intros E. unfold serve, route, put_task. by rewrite E. Qed.

Lemma put_task_invalid param body tasks i t :
  find (id_matches param) tasks = Some (i, t) →
  body ≠ JUndefined → body ≠ JNull →
  invalid_data (get_prop body "title") (get_prop body "completed") = true →
  serve (PutTask param body) tasks = (tasks, invalid).
Proof.
  intros E ? ? Hinv. unfold serve, route, put_task. rewrite E.
  rewrite destructure_Ok by done. simpl. by rewrite Hinv.
Qed.

Lemma put_task_valid param body tasks i t s b :
  find (id_matches param) tasks = Some (i, t) →
  get_prop body "title" = JStr s → get_prop body "completed" = JBool b →
  serve (PutTask param body) tasks =
    (<[i := mkTask (id t) s b]> tasks,
     {| status := 200;
        json := ok_envelope (DataTask (mkTask (id t) s b))
                  "Task updated successfully" |}).
Proof.
  intros E Ht Hc. unfold serve, route, put_task. rewrite E.
  destruct (get_prop_parsed _ _ _ Ht) as [? ?]; [done|].
  rewrite destructure_Ok by done. simpl. by rewrite Ht, Hc.
Qed.

(** C4: update looks the task up before it looks at the payload.  When no
    task has the id read from the path the answer is 404 "Task not found"
    whatever the body is (well formed, malformed or absent); when a task
    has it and the payload's [title] is not a string or its [completed] not
    a boolean, the answer is 400 "Invalid data"; in both cases the store is
    unchanged. *)
Theorem update_checks_existence_first (tasks : list Task) (param : string)
    (body : JsVal) :
  (¬ present param tasks →
     serve (PutTask param body) tasks =
       (tasks,
        {| status := 404;
           json := {| success := false; data := None;
                      message := "Task not found" |} |}))
  ∧ (present param tasks →
     body ≠ JUndefined → body ≠ JNull →
     typeof (get_prop body "title") ≠ "string"
       ∨ typeof (get_prop body "completed") ≠ "boolean" →
     serve (PutTask param body) tasks =
       (tasks,
        {| status := 400;
           json := {| success := false; data := None;
                      message := "Invalid data" |} |})).
Proof.
  split.
  - intros E%find_None. by apply put_task_missing.
  - intros (i & t & E)%find_present ? ? Hinv%invalid_data_true.
    by eapply put_task_invalid.
Qed.

Lemma update_checks_existence_first_witness :
  serve (PutTask "9" (JObj ∅)) seed =
    (seed,
     {| status := 404;
        json := {| success := false; data := None;
                   message := "Task not found" |} |})
  ∧ serve (PutTask "2" (JObj ∅)) seed =
    (seed,
     {| status := 400;
        json := {| success := false; data := None;
                   message := "Invalid data" |} |}).
Proof.
  split.
  - apply (proj1 (update_checks_existence_first seed "9" (JObj ∅))).
    apply (bool_decide_unpack _). vm_compute. exact I.
  - apply (proj2 (update_checks_existence_first seed "2" (JObj ∅)));
      [apply (bool_decide_unpack _); vm_compute; exact I
      | discriminate | discriminate | left; vm_compute; discriminate].
Defined.

(** C7: an update with a path parameter that names a task and a payload
    with a string [title] and a boolean [completed] writes those two fields
    into the first task with that id, where it stands.  The task keeps its id
    and its index, the store keeps its length, and every other index holds
    what it held; the answer is 200 with the updated task. *)
Theorem update_in_place (tasks : list Task) (param : string) (body : JsVal)
    (s : string) (b : bool) :
  present param tasks →
  get_prop body "title" = JStr s →
  get_prop body "completed" = JBool b →
  ∃ i t,
    tasks !! i = Some t ∧ parseInt param = Some (id t)
    ∧ (∀ j t', tasks !! j = Some t' → (j < i)%nat → id t' ≠ id t)
    ∧ serve (PutTask param body) tasks =
        (<[i := mkTask (id t) s b]> tasks,
         {| status := 200;
            json := {| success := true;
                       data := Some (DataTask (mkTask (id t) s b));
                       message := "Task updated successfully" |} |})
    ∧ fst (serve (PutTask param body) tasks) !! i = Some (mkTask (id t) s b)
    ∧ length (fst (serve (PutTask param body) tasks)) = length tasks
    ∧ ids (fst (serve (PutTask param body) tasks)) = ids tasks
    ∧ (∀ j, j ≠ i →
         fst (serve (PutTask param body) tasks) !! j = tasks !! j).
Proof.
  intros (i & t & E)%find_present Ht Hc.
  pose proof E as (Hi & Hp & Hfirst)%find_Some.
  exists i, t. rewrite (put_task_valid _ _ _ _ _ _ _ E Ht Hc). simpl.
  split_and!; [done..| |done| | | |].
  - intros j t' Hj Hlt Heq. apply (Hfirst j t' Hj Hlt). by rewrite Heq.
  - apply list_lookup_insert_eq. by eapply lookup_lt_Some.
  - apply length_insert.
  - unfold ids. rewrite list_fmap_insert. simpl.
    apply list_insert_id. by rewrite list_lookup_fmap, Hi.
  - intros j Hne. by apply list_lookup_insert_ne.
Qed.

Lemma update_in_place_witness :
  ∃ i t,
    seed !! i = Some t ∧ parseInt "2" = Some (id t)
    ∧ (∀ j t', seed !! j = Some t' → (j < i)%nat → id t' ≠ id t)
    ∧ serve (PutTask "2" (payload "Y" true)) seed =
        (<[i := mkTask (id t) "Y" true]> seed,
         {| status := 200;
            json := {| success := true;
                       data := Some (DataTask (mkTask (id t) "Y" true));
                       message := "Task updated successfully" |} |})
    ∧ fst (serve (PutTask "2" (payload "Y" true)) seed) !! i
        = Some (mkTask (id t) "Y" true)
    ∧ length (fst (serve (PutTask "2" (payload "Y" true)) seed)) = length seed
    ∧ ids (fst (serve (PutTask "2" (payload "Y" true)) seed)) = ids seed
    ∧ (∀ j, j ≠ i →
         fst (serve (PutTask "2" (payload "Y" true)) seed) !! j = seed !! j).
Proof.
  apply (update_in_place seed "2" (payload "Y" true) "Y" true);
    [apply (bool_decide_unpack _); vm_compute; exact I
    | reflexivity | reflexivity].
Defined.

(** ** Delete *)

Lemma splice_one (tasks : list Task) i t :
  tasks !! i = Some t → splice i 1 tasks = ([t], delete i tasks).
Proof.
  intros Hi. unfold splice. f_equal.
  - by rewrite (drop_S _ _ _ Hi).
  - by rewrite Nat.add_1_r, delete_take_drop.
Qed.

Lemma delete_task_found param tasks i t :
  find (id_matches param) tasks = Some (i, t) →
  serve (DeleteTask param) tasks =
    (delete i tasks,
     {| status := 200;
        json := ok_envelope (DataTasks [t]) "Task deleted successfully" |}).
Proof.
  intros E. pose proof E as (Hi & _)%find_Some.
  unfold serve, route, delete_task. rewrite findIndex_find, E.
  cbn [from_option fst].
  destruct (Z.eqb_spec (Z.of_nat i) (-1)) as [?|_]; [lia|].
  by rewrite Nat2Z.id, (splice_one _ _ _ Hi).
Qed.

Lemma delete_task_missing param tasks :
  find (id_matches param) tasks = None →
  serve (DeleteTask param) tasks = (tasks, not_found).
Proof.
  intros E. unfold serve, route, delete_task. by rewrite findIndex_find, E.
Qed.

(** What delete does in every state: the first task with the id leaves the
    store and comes back as a one-element array; an id no task has is
    answered 404 and nothing changes. *)
Lemma delete_task_spec (tasks : list Task) (param : string) :
  (present param tasks →
     ∃ i t, tasks !! i = Some t ∧ parseInt param = Some (id t)
       ∧ serve (DeleteTask param) tasks =
           (delete i tasks,
            {| status := 200;
               json := {| success := true; data := Some (DataTasks [t]);
                          message := "Task deleted successfully" |} |})
       ∧ S (length (fst (serve (DeleteTask param) tasks))) = length tasks)
  ∧ (¬ present param tasks →
       serve (DeleteTask param) tasks =
         (tasks,
          {| status := 404;
             json := {| success := false; data := None;
                        message := "Task not found" |} |})).
Proof.
  split.
  - intros (i & t & E)%find_present.
    pose proof E as (Hi & Hp & _)%find_Some.
    exists i, t. rewrite (delete_task_found _ _ _ _ E). simpl.
    split_and!; [done..|].
    rewrite length_delete by eauto. apply lookup_lt_Some in Hi. lia.
  - intros E%find_None. by apply delete_task_missing.
Qed.

(** In a store whose ids are pairwise distinct a deleted id is gone: GET
    and a second DELETE of it are answered 404. *)
Lemma delete_unique_id_gone (tasks : list Task) (param : string) :
  NoDup (ids tasks) → present param tasks →
  ¬ present param (fst (serve (DeleteTask param) tasks)).
Proof.
  intros Hnd (i & t & E)%find_present.
  pose proof E as (Hi & Hp & _)%find_Some.
  rewrite (delete_task_found _ _ _ _ E). simpl.
  unfold present. rewrite Exists_exists. intros (t' & Hin & Hp').
  apply list_elem_of_lookup in Hin as [j Hj].
  rewrite Hp in Hp'. injection Hp' as Heq.
  destruct (decide (j < i)%nat).
  - rewrite list_lookup_delete_lt in Hj by done.
    destruct (unique_id_unique_task tasks i j t t' Hnd Hi Hj Heq). lia.
  - rewrite list_lookup_delete_ge in Hj by lia.
    destruct (unique_id_unique_task tasks i (S j) t t' Hnd Hi Hj Heq). lia.
Qed.

Lemma delete_unique_id_not_retrievable (tasks : list Task) (param : string) :
  NoDup (ids tasks) → present param tasks →
  let tasks' := fst (serve (DeleteTask param) tasks) in
  serve (GetTask param) tasks' = (tasks', not_found)
  ∧ serve (DeleteTask param) tasks' = (tasks', not_found).
Proof.
  intros Hnd Hp tasks'.
  pose proof (delete_unique_id_gone tasks param Hnd Hp) as E%find_None.
  split; [by apply get_task_missing|by apply delete_task_missing].
Qed.

(** ** Reachable states *)

Lemma reachable_run reqs tasks : reachable tasks → reachable (run reqs tasks).
Proof.
  revert tasks. induction reqs as [|req reqs IH]; intros tasks H; [done|].
  apply IH. by constructor.
Qed.

(** The shapes a request can leave the store in. *)
Lemma post_task_cases body tasks :
  fst (serve (PostTask body) tasks) = tasks
  ∨ ∃ s b, fst (serve (PostTask body) tasks)
           = tasks ++ [mkTask (Z.of_nat (length tasks) + 1) s b].
Proof.
  unfold serve, route, post_task, destructure, bind.
  repeat case_match; simplify_eq/=; eauto.
Qed.

Lemma put_task_cases param body tasks :
  fst (serve (PutTask param body) tasks) = tasks
  ∨ ∃ i t s b, tasks !! i = Some t
      ∧ fst (serve (PutTask param body) tasks) = <[i := mkTask (id t) s b]> tasks.
Proof.
  unfold serve, route, put_task.
  destruct (find _ _) as [[i t]|] eqn:E; [|by left].
  apply find_Some in E as (Hi & _).
  unfold destructure, bind.
  repeat case_match; simplify_eq/=; eauto 8.
Qed.

Lemma numbered_seed : numbered seed.
Proof.
  intros i t Hi. do 5 (destruct i as [|i]; [by simplify_eq/=|]). done.
Qed.

Lemma numbered_serve req tasks :
  is_delete req = false → numbered tasks → numbered (fst (serve req tasks)).
Proof.
  intros Hreq Hnum. destruct req as [|param|body|param body|param]; try done.
  - destruct (find (id_matches param) tasks) as [[i t]|] eqn:E.
    + by rewrite (get_task_found _ _ _ _ E).
    + by rewrite (get_task_missing _ _ E).
  - destruct (post_task_cases body tasks) as [->|(s & b & ->)]; [done|].
    intros i t [Hi|[Hlen Hi]]%lookup_app_Some; [by apply Hnum|].
    destruct (i - length tasks)%nat as [|k] eqn:Ek; [|done].
    simplify_eq/=. lia.
  - destruct (put_task_cases param body tasks)
      as [->|(i & t & s & b & Hi & ->)]; [done|].
    intros j t' Hj. apply list_lookup_insert_Some in Hj
      as [(-> & <- & _)|(_ & Hj)]; [simpl|]; by apply Hnum.
Qed.

Lemma numbered_NoDup tasks : numbered tasks → NoDup (ids tasks).
Proof.
  intros Hnum. apply NoDup_alt. intros i j n. unfold ids.
  rewrite !list_lookup_fmap.
  destruct (tasks !! i) as [t|] eqn:Hi; [|done].
  destruct (tasks !! j) as [t'|] eqn:Hj; [|done].
  simpl. intros [= <-] [= Heq].
  apply Hnum in Hi, Hj. lia.
Qed.

(** Without a delete among the requests served, ids are pairwise distinct. *)
Lemma ids_unique_without_delete (reqs : list Request) :
  forallb (λ req, negb (is_delete req)) reqs = true →
  NoDup (ids (run reqs seed)).
Proof.
  intros Hreqs. apply numbered_NoDup.
  assert (∀ tasks, numbered tasks → numbered (run reqs tasks)) as H.
  { induction reqs as [|req reqs IH]; intros tasks Hnum; [done|].
    simpl in Hreqs. apply andb_true_iff in Hreqs as [Hreq Hreqs].
    apply (IH Hreqs). apply numbered_serve; [|done].
    by apply negb_true_iff. }
  apply H, numbered_seed.
Qed.

(** ** Ids after a delete *)

(** C1: the store reached from the seed by deleting task 3 and creating a
    task holds two tasks with id 5: the create numbered the new task by the
    length of the store, 4, plus 1, while the seed task 5 is still there. *)
Theorem id_collision_after_delete :
  reachable collided
  ∧ collided =
      [ mkTask 1 "Learn Express" false;
        mkTask 2 "Build a REST API" false;
        mkTask 4 "Add Swagger Documentation" false;
        mkTask 5 "Deploy to Server" false;
        mkTask 5 "X" false ]
  ∧ ¬ NoDup (ids collided).
Proof.
  split_and!.
  - apply reachable_run, reachable_seed.
  - reflexivity.
  - intros H.
    pose proof (proj1 (NoDup_alt _) H 3%nat 4%nat 5 eq_refl eq_refl).
    discriminate.
Qed.

(** C3: in that store [DELETE /api/tasks/5] answers 200 with the seed task 5
    as a one-element array and the store shrinks by one, yet
    [GET /api/tasks/5] still answers 200 afterwards, with the other task
    of id 5. *)
Theorem delete_leaves_shared_id_retrievable :
  reachable collided
  ∧ serve (DeleteTask "5") collided =
      (delete 3%nat collided,
       {| status := 200;
          json := {| success := true;
                     data := Some (DataTasks [mkTask 5 "Deploy to Server" false]);
                     message := "Task deleted successfully" |} |})
  ∧ S (length (delete 3%nat collided)) = length collided
  ∧ serve (GetTask "5") (delete 3%nat collided) =
      (delete 3%nat collided,
       {| status := 200;
          json := {| success := true;
                     data := Some (DataTask (mkTask 5 "X" false));
                     message := "Task fetched successfully" |} |}).
Proof.
  split_and!; [apply reachable_run, reachable_seed|reflexivity..].
Qed.

(** C8: in that store [DELETE /api/tasks/5] sent twice in a row answers 200
    both times: the second request removes the other task of id 5. *)
Theorem delete_twice_succeeds_on_shared_id :
  reachable collided
  ∧ serve (DeleteTask "5") collided =
      (delete 3%nat collided,
       {| status := 200;
          json := {| success := true;
                     data := Some (DataTasks [mkTask 5 "Deploy to Server" false]);
                     message := "Task deleted successfully" |} |})
  ∧ serve (DeleteTask "5") (delete 3%nat collided) =
      (delete 3%nat (delete 3%nat collided),
       {| status := 200;
          json := {| success := true;
                     data := Some (DataTasks [mkTask 5 "X" false]);
                     message := "Task deleted successfully" |} |}).
Proof.
  split_and!; [apply reachable_run, reachable_seed|reflexivity..].
Qed.

(** ** Path parameters with trailing characters *)

(** C9: a path parameter made of the decimal numeral of a task's id and
    any characters after it that do not go on with a digit (nor, after a
    lone 0, with x or X) is read by [parseInt] as that id, so get, update
    (given a valid payload) and delete resolve the first task with the id
    and answer 200. *)
Theorem numeric_prefix_resolves (tasks : list Task) (t : Task)
    (rest : string) (body : JsVal) (s : string) (b : bool) :
  t ∈ tasks →
  starts_with is_decimal rest = false →
  (id t = 0 → starts_with is_x rest = false) →
  get_prop body "title" = JStr s →
  get_prop body "completed" = JBool b →
  let param := pretty (id t) +:+ rest in
  parseInt param = Some (id t)
  ∧ ∃ i t1,
      tasks !! i = Some t1 ∧ id t1 = id t
      ∧ (∀ j t', tasks !! j = Some t' → (j < i)%nat → id t' ≠ id t)
      ∧ serve (GetTask param) tasks =
          (tasks,
           {| status := 200;
              json := {| success := true; data := Some (DataTask t1);
                         message := "Task fetched successfully" |} |})
      ∧ serve (PutTask param body) tasks =
          (<[i := mkTask (id t1) s b]> tasks,
           {| status := 200;
              json := {| success := true;
                         data := Some (DataTask (mkTask (id t1) s b));
                         message := "Task updated successfully" |} |})
      ∧ serve (DeleteTask param) tasks =
          (delete i tasks,
           {| status := 200;
              json := {| success := true; data := Some (DataTasks [t1]);
                         message := "Task deleted successfully" |} |}).
Proof.
  intros Hin Hrest Hx Ht Hc param.
  pose proof (parseInt_pretty (id t) rest Hrest Hx) as Hparse.
  split; [done|].
  assert (present param tasks) as Hp.
  { unfold present. apply Exists_exists. by exists t. }
  destruct (find_present _ _ Hp) as (i & t1 & E).
  pose proof E as (Hi & Hp1 & Hfirst)%find_Some.
  assert (id t1 = id t) as Heq by (unfold param in *; congruence).
  exists i, t1. split_and!; [done..| | | |].
  - intros j t' Hj Hlt Heq'. apply (Hfirst j t' Hj Hlt). congruence.
  - by eapply get_task_found.
  - by eapply put_task_valid.
  - by eapply delete_task_found.
Qed.

Lemma numeric_prefix_resolves_witness :
  parseInt "3abc" = Some 3
  ∧ ∃ i t1,
      seed !! i = Some t1 ∧ id t1 = 3
      ∧ (∀ j t', seed !! j = Some t' → (j < i)%nat → id t' ≠ 3)
      ∧ serve (GetTask "3abc") seed =
          (seed,
           {| status := 200;
              json := {| success := true; data := Some (DataTask t1);
                         message := "Task fetched successfully" |} |})
      ∧ serve (PutTask "3abc" (payload "Y" false)) seed =
          (<[i := mkTask (id t1) "Y" false]> seed,
           {| status := 200;
              json := {| success := true;
                         data := Some (DataTask (mkTask (id t1) "Y" false));
                         message := "Task updated successfully" |} |})
      ∧ serve (DeleteTask "3abc") seed =
          (delete i seed,
           {| status := 200;
              json := {| success := true; data := Some (DataTasks [t1]);
                         message := "Task deleted successfully" |} |}).
Proof.
  apply (numeric_prefix_resolves seed (mkTask 3 "Test API with Postman" true)
           "abc" (payload "Y" false) "Y" false);
    [apply (list_elem_of_lookup_2 _ 2%nat); reflexivity
    | reflexivity | discriminate | reflexivity | reflexivity].
Defined.

(** ** A session *)

(** From the seed: a create is numbered 6, the task can be fetched, is
    deleted, and is then gone. *)
Example session_create_get_delete :
  let '(tasks1, r1) := serve (PostTask (payload "X" false)) seed in
  let '(tasks2, r2) := serve (GetTask "6") tasks1 in
  let '(tasks3, r3) := serve (DeleteTask "6") tasks2 in
  let '(tasks4, r4) := serve (GetTask "6") tasks3 in
  status r1 = 201 ∧ data (json r1) = Some (DataTask (mkTask 6 "X" false))
  ∧ status r2 = 200 ∧ data (json r2) = Some (DataTask (mkTask 6 "X" false))
  ∧ status r3 = 200 ∧ data (json r3) = Some (DataTasks [mkTask 6 "X" false])
  ∧ status r4 = 404 ∧ tasks4 = seed.
Proof. vm_compute. by split_and!. Qed.

(** ** The outcomes of a request *)

Lemma nullish_false body : nullish body = false → body ≠ JUndefined ∧ body ≠ JNull.
Proof. by destruct body. Qed.

Lemma delete_task_cases param tasks :
  fst (serve (DeleteTask param) tasks) = tasks
  ∨ ∃ i t, tasks !! i = Some t
      ∧ fst (serve (DeleteTask param) tasks) = delete i tasks.
Proof.
  destruct (find (id_matches param) tasks) as [[i t]|] eqn:E.
  - right. exists i, t. rewrite (delete_task_found _ _ _ _ E).
    by apply find_Some in E as (? & _).
  - left. by rewrite (delete_task_missing _ _ E).
Qed.

(** Every way a create can end. *)
Lemma post_task_shape body tasks :
  (nullish body = true ∧ serve (PostTask body) tasks = (tasks, server_error))
  ∨ (nullish body = false
     ∧ invalid_data (get_prop body "title") (get_prop body "completed") = true
     ∧ serve (PostTask body) tasks = (tasks, invalid))
  ∨ (∃ s b, get_prop body "title" = JStr s ∧ get_prop body "completed" = JBool b
     ∧ serve (PostTask body) tasks =
         (tasks ++ [mkTask (Z.of_nat (length tasks) + 1) s b],
          {| status := 201;
             json := ok_envelope
                       (DataTask (mkTask (Z.of_nat (length tasks) + 1) s b))
                       "Task created successfully" |})).
Proof.
  destruct (nullish body) eqn:Hn.
  - left. split; [done|]. by destruct body.
  - right. apply nullish_false in Hn as [? ?].
    destruct (invalid_data _ _) eqn:Hinv.
    + left. split_and!; [done..|]. unfold serve, route.
      by rewrite post_task_invalid.
    + right. apply invalid_data_false in Hinv as (s & b & Ht & Hc).
      exists s, b. split_and!; [done..|]. unfold serve, route.
      by rewrite (post_task_valid _ _ _ _ Ht Hc).
Qed.

(** Every way an update can end. *)
Lemma put_task_shape param body tasks :
  (find (id_matches param) tasks = None
   ∧ serve (PutTask param body) tasks = (tasks, not_found))
  ∨ ∃ i t, find (id_matches param) tasks = Some (i, t)
      ∧ ((nullish body = true
          ∧ serve (PutTask param body) tasks = (tasks, server_error))
         ∨ (nullish body = false
            ∧ invalid_data (get_prop body "title") (get_prop body "completed")
              = true
            ∧ serve (PutTask param body) tasks = (tasks, invalid))
         ∨ (∃ s b, get_prop body "title" = JStr s
              ∧ get_prop body "completed" = JBool b
              ∧ serve (PutTask param body) tasks =
                  (<[i := mkTask (id t) s b]> tasks,
                   {| status := 200;
                      json := ok_envelope (DataTask (mkTask (id t) s b))
                                "Task updated successfully" |}))).
Proof.
  destruct (find (id_matches param) tasks) as [[i t]|] eqn:E.
  - right. exists i, t. split; [done|].
    destruct (nullish body) eqn:Hn.
    + left. split; [done|]. unfold serve, route, put_task. rewrite E.
      by destruct body.
    + right. apply nullish_false in Hn as [? ?].
      destruct (invalid_data _ _) eqn:Hinv.
      * left. split_and!; [done..|]. by eapply put_task_invalid.
      * right. apply invalid_data_false in Hinv as (s & b & Ht & Hc).
        exists s, b. split_and!; [done..|]. by eapply put_task_valid.
  - left. split; [done|]. by apply put_task_missing.
Qed.

(** Every way a get or a delete can end. *)
Lemma get_task_shape param tasks :
  (find (id_matches param) tasks = None
   ∧ serve (GetTask param) tasks = (tasks, not_found))
  ∨ ∃ i t, find (id_matches param) tasks = Some (i, t)
      ∧ serve (GetTask param) tasks =
          (tasks,
           {| status := 200;
              json := ok_envelope (DataTask t) "Task fetched successfully" |}).
Proof.
  destruct (find (id_matches param) tasks) as [[i t]|] eqn:E.
  - right. exists i, t. split; [done|]. by eapply get_task_found.
  - left. split; [done|]. by apply get_task_missing.
Qed.

Lemma delete_task_shape param tasks :
  (find (id_matches param) tasks = None
   ∧ serve (DeleteTask param) tasks = (tasks, not_found))
  ∨ ∃ i t, find (id_matches param) tasks = Some (i, t)
      ∧ serve (DeleteTask param) tasks =
          (delete i tasks,
           {| status := 200;
              json := ok_envelope (DataTasks [t]) "Task deleted successfully" |}).
Proof.
  destruct (find (id_matches param) tasks) as [[i t]|] eqn:E.
  - right. exists i, t. split; [done|]. by eapply delete_task_found.
  - left. split; [done|]. by apply delete_task_missing.
Qed.



(** X2: a request answered with success = false leaves the store exactly
    as it was (every 400, 404 and 500), and so do the two reading routes
    whatever they answer. *)
Theorem failure_leaves_store (req : Request) (tasks : list Task) :
  (success (json (snd (serve req tasks))) = false →
     fst (serve req tasks) = tasks)
  ∧ (match req with GetTasks | GetTask _ => True | _ => False end →
     fst (serve req tasks) = tasks).
Proof.
  destruct req as [|param|body|param body|param]; simpl.
  - done.
  - by destruct (get_task_shape param tasks) as [[_ ->]|(i & t & _ & ->)].
  - by destruct (post_task_shape body tasks)
      as [[_ ->]|[(_ & _ & ->)|(s & b & _ & _ & ->)]].
  - by destruct (put_task_shape param body tasks)
      as [[_ ->]|(i & t & _ & [[_ ->]|[(_ & _ & ->)|(s & b & _ & _ & ->)]])].
  - by destruct (delete_task_shape param tasks) as [[_ ->]|(i & t & _ & ->)].
Qed.

Lemma failure_leaves_store_witness :
  fst (serve (PutTask "2" (JObj ∅)) seed) = seed
  ∧ fst (serve (GetTask "2") seed) = seed.
Proof.
  split.
  - apply (proj1 (failure_leaves_store (PutTask "2" (JObj ∅)) seed)).
    reflexivity.
  - apply (proj2 (failure_leaves_store (GetTask "2") seed)). exact I.
Defined.


(** X4: the three routes that take an id agree on which path parameters
    name a task: get answers 404 exactly when delete does, exactly when
    update does for any body whatever, and exactly when no task of the
    store has the id read from the parameter. *)
Theorem by_id_routes_agree (tasks : list Task) (param : string) (body : JsVal) :
  (status (snd (serve (GetTask param) tasks)) = 404 ↔ ¬ present param tasks)
  ∧ (status (snd (serve (DeleteTask param) tasks)) = 404
     ↔ ¬ present param tasks)
  ∧ (status (snd (serve (PutTask param body) tasks)) = 404
     ↔ ¬ present param tasks).
Proof.
  assert (∀ i t, find (id_matches param) tasks = Some (i, t) →
            ¬ ¬ present param tasks) as Hfound.
  { intros i t E Hnp. apply find_None in Hnp. congruence. }
  split_and!.
  - destruct (get_task_shape param tasks) as [[E ->]|(i & t & E & ->)]; simpl.
    + by apply find_None in E.
    + split; [done|]. intros ?. by destruct (Hfound i t).
  - destruct (delete_task_shape param tasks) as [[E ->]|(i & t & E & ->)]; simpl.
    + by apply find_None in E.
    + split; [done|]. intros ?. by destruct (Hfound i t).
  - destruct (put_task_shape param body tasks)
      as [[E ->]|(i & t & E & [[Hn ->]|[(Hn & _ & ->)|(s & b & Ht & _ & ->)]])];
      simpl.
    + by apply find_None in E.
    + split; [done|]. intros ?. by destruct (Hfound i t).
    + split; [done|]. intros ?. by destruct (Hfound i t).
    + split; [done|]. intros ?. by destruct (Hfound i t).
Qed.

(** ** Ids over the life of the server *)

(** X5: as long as no delete has been served, whatever other requests were,
    the task at index [i] of the store has id [i + 1]: ids are pairwise
    distinct, and the store never holds fewer than the five seed tasks. *)
Theorem ids_follow_position_without_delete (reqs : list Request) :
  forallb (λ req, negb (is_delete req)) reqs = true →
  (∀ i t, run reqs seed !! i = Some t → id t = Z.of_nat i + 1)
  ∧ NoDup (ids (run reqs seed))
  ∧ (5 ≤ length (run reqs seed))%nat.
Proof.
  intros Hreqs.
  assert (∀ tasks, numbered tasks ∧ (5 ≤ length tasks)%nat →
            numbered (run reqs tasks) ∧ (5 ≤ length (run reqs tasks))%nat) as H.
  { induction reqs as [|req reqs IH]; intros tasks [Hnum Hlen]; [done|].
    simpl in Hreqs. apply andb_true_iff in Hreqs as [Hreq Hreqs].
    apply negb_true_iff in Hreq.
    apply (IH Hreqs). split; [by apply numbered_serve|].
    destruct req as [|param|body|param body|param]; try done.
    - by destruct (get_task_shape param tasks) as [[_ ->]|(i & t & _ & ->)].
    - destruct (post_task_cases body tasks) as [->|(s & b & ->)]; [done|].
      rewrite length_app. lia.
    - destruct (put_task_cases param body tasks)
        as [->|(i & t & s & b & _ & ->)]; [done|].
      by rewrite length_insert. }
  destruct (H seed) as [Hnum Hlen].
  { split; [apply numbered_seed|done]. }
  split_and!; [done|by apply numbered_NoDup|done].
Qed.

Lemma ids_follow_position_without_delete_witness :
  NoDup (ids (run [PostTask (payload "X" false);
                   PutTask "6" (payload "Y" true);
                   GetTasks;
                   PostTask (JObj ∅)] seed)).
Proof.
  apply (ids_follow_position_without_delete
           [PostTask (payload "X" false); PutTask "6" (payload "Y" true);
            GetTasks; PostTask (JObj ∅)]).
  reflexivity.
Defined.

(** X6: in every state the server can reach, deletes included, every task
    has an id of at least 1; the decimal numeral of the id of any task of
    the store, also followed by text that does not go on with a digit,
    therefore always names a task of the store. *)
Theorem reachable_ids_positive (tasks : list Task) :
  reachable tasks →
  (∀ t, t ∈ tasks → 1 ≤ id t)
  ∧ (∀ t rest, t ∈ tasks → starts_with is_decimal rest = false →
       present (pretty (id t) +:+ rest) tasks).
Proof.
  intros Hreach.
  assert (∀ t, t ∈ tasks → 1 ≤ id t) as Hpos.
  { induction Hreach as [|req tasks _ IH].
    - intros t [i Hi]%list_elem_of_lookup.
      do 5 (destruct i as [|i]; [by simplify_eq/=|]). done.
    - destruct req as [|param|body|param body|param]; try done.
      + by destruct (get_task_shape param tasks) as [[_ ->]|(i & t & _ & ->)].
      + destruct (post_task_cases body tasks) as [->|(s & b & ->)]; [done|].
        intros t [Ht|Ht]%elem_of_app; [by apply IH|].
        apply list_elem_of_singleton in Ht as ->. simpl. lia.
      + destruct (put_task_cases param body tasks)
          as [->|(i & t & s & b & Hi & ->)]; [done|].
        intros t' Ht'. apply list_elem_of_lookup in Ht' as [j Hj].
        apply list_lookup_insert_Some in Hj as [(-> & <- & _)|(_ & Hj)].
        * simpl. apply IH. by eapply list_elem_of_lookup_2.
        * apply IH. by eapply list_elem_of_lookup_2.
      + destruct (delete_task_cases param tasks)
          as [->|(i & t & _ & ->)]; [done|].
        intros t' Ht'%list_elem_of_delete_inv. by apply IH. }
  split; [done|].
  intros t rest Ht Hrest. apply Exists_exists. exists t. split; [done|].
  apply parseInt_pretty; [done|]. intros H0. specialize (Hpos t Ht). lia.
Qed.

Lemma reachable_ids_positive_witness :
  (∀ t, t ∈ collided → 1 ≤ id t)
  ∧ (∀ t rest, t ∈ collided → starts_with is_decimal rest = false →
       present (pretty (id t) +:+ rest) collided).
Proof.
  apply (reachable_ids_positive collided).
  apply (reachable_serve (PostTask (payload "X" false))
           (fst (serve (DeleteTask "3") seed))).
  apply (reachable_serve (DeleteTask "3") seed).
  apply reachable_seed.
Defined.

(** ** Requests in sequence *)

Lemma find_insert_same param tasks i t t' :
  find (id_matches param) tasks = Some (i, t) → id t' = id t →
  find (id_matches param) (<[i := t']> tasks) = Some (i, t').
Proof.
  intros (Hi & Hp & Hfirst)%find_Some Heq. apply find_Some. split_and!.
  - apply list_lookup_insert_eq. by eapply lookup_lt_Some.
  - by rewrite Heq.
  - intros j t'' Hj Hlt. rewrite list_lookup_insert_ne in Hj by lia. eauto.
Qed.

Lemma parseInt_pretty_exact (n : Z) : parseInt (pretty n) = Some n.
Proof. rewrite <-(append_empty_r (pretty n)). by apply parseInt_pretty. Qed.

(** X7: after a successful update, a get with the same path parameter
    answers 200 with the task as updated: the id read from the parameter and
    the title and completed of the payload.  This holds in every store, also
    one where several tasks share the id. *)
Theorem update_then_get (tasks : list Task) (param : string) (body : JsVal)
    (s : string) (b : bool) :
  present param tasks →
  get_prop body "title" = JStr s →
  get_prop body "completed" = JBool b →
  ∃ n, parseInt param = Some n
    ∧ serve (GetTask param) (fst (serve (PutTask param body) tasks)) =
        (fst (serve (PutTask param body) tasks),
         {| status := 200;
            json := {| success := true;
                       data := Some (DataTask (mkTask n s b));
                       message := "Task fetched successfully" |} |}).
Proof.
  intros (i & t & E)%find_present Ht Hc.
  pose proof E as (Hi & Hp & _)%find_Some.
  exists (id t). split; [done|].
  rewrite (put_task_valid _ _ _ _ _ _ _ E Ht Hc). simpl.
  eapply get_task_found, find_insert_same; [exact E|done].
Qed.

Lemma update_then_get_witness :
  ∃ n, parseInt "5" = Some n
    ∧ serve (GetTask "5")
        (fst (serve (PutTask "5" (payload "Y" true)) collided)) =
        (fst (serve (PutTask "5" (payload "Y" true)) collided),
         {| status := 200;
            json := {| success := true;
                       data := Some (DataTask (mkTask n "Y" true));
                       message := "Task fetched successfully" |} |}).
Proof.
  apply (update_then_get collided "5" (payload "Y" true) "Y" true);
    [apply (bool_decide_unpack _); vm_compute; exact I
    | reflexivity | reflexivity].
Defined.

(** X8: sending the same update twice in a row is the same as sending it
    once: the second request leaves the store as the first left it and gets
    the same answer, whatever the parameter and the body are (found or not,
    valid or not). *)
Theorem update_idempotent (tasks : list Task) (param : string) (body : JsVal) :
  serve (PutTask param body) (fst (serve (PutTask param body) tasks))
  = serve (PutTask param body) tasks.
Proof.
  destruct (put_task_shape param body tasks)
    as [[E H]|(i & t & E & [[Hn H]|[(Hn & _ & H)|(s & b & Ht & Hc & H)]])];
    rewrite H; simpl; try done.
  pose proof (find_insert_same param tasks i t (mkTask (id t) s b) E eq_refl)
    as E'.
  rewrite (put_task_valid _ _ _ _ _ _ _ E' Ht Hc). simpl.
  by rewrite list_insert_insert_eq.
Qed.

(** X9: when no task of the store has the id [length + 1], the task made by
    a valid create can be fetched under the decimal numeral of that id, and
    deleting it under that numeral gives back the store as it was before
    the create. *)
Theorem create_then_get_delete (tasks : list Task) (body : JsVal)
    (s : string) (b : bool) :
  get_prop body "title" = JStr s →
  get_prop body "completed" = JBool b →
  (∀ t, t ∈ tasks → id t ≠ Z.of_nat (length tasks) + 1) →
  let newTask := mkTask (Z.of_nat (length tasks) + 1) s b in
  let tasks' := fst (serve (PostTask body) tasks) in
  serve (GetTask (pretty (id newTask))) tasks' =
    (tasks',
     {| status := 200;
        json := {| success := true; data := Some (DataTask newTask);
                   message := "Task fetched successfully" |} |})
  ∧ serve (DeleteTask (pretty (id newTask))) tasks' =
    (tasks,
     {| status := 200;
        json := {| success := true; data := Some (DataTasks [newTask]);
                   message := "Task deleted successfully" |} |}).
Proof.
  intros Ht Hc Hfresh newTask tasks'.
  assert (tasks' = tasks ++ [newTask]) as ->.
  { unfold tasks', serve, route. by rewrite (post_task_valid _ _ _ _ Ht Hc). }
  assert (find (id_matches (pretty (id newTask))) (tasks ++ [newTask])
          = Some (length tasks, newTask)) as E.
  { apply find_Some. rewrite parseInt_pretty_exact. split_and!; [|done|].
    - rewrite lookup_app_r by done. by rewrite Nat.sub_diag.
    - intros j t' Hj Hlt [= Heq]. rewrite lookup_app_l in Hj by done.
      apply (Hfresh t'); [by eapply list_elem_of_lookup_2|]. by rewrite <-Heq. }
  split.
  - by apply (get_task_found _ _ (length tasks)).
  - rewrite (delete_task_found _ _ _ _ E).
    by rewrite delete_middle, app_nil_r.
Qed.

Lemma create_then_get_delete_witness :
  serve (GetTask "6") (fst (serve (PostTask (payload "X" false)) seed)) =
    (fst (serve (PostTask (payload "X" false)) seed),
     {| status := 200;
        json := {| success := true;
                   data := Some (DataTask (mkTask 6 "X" false));
                   message := "Task fetched successfully" |} |})
  ∧ serve (DeleteTask "6") (fst (serve (PostTask (payload "X" false)) seed)) =
    (seed,
     {| status := 200;
        json := {| success := true;
                   data := Some (DataTasks [mkTask 6 "X" false]);
                   message := "Task deleted successfully" |} |}).
Proof.
  apply (create_then_get_delete seed (payload "X" false) "X" false);
    [reflexivity | reflexivity |].
  intros t [i Hi]%list_elem_of_lookup.
  do 5 (destruct i as [|i]; [by simplify_eq/=|]). done.
Defined.

(** ** What a delete takes away *)

Lemma count_id_app n l1 l2 : count_id n (l1 ++ l2) = (count_id n l1 + count_id n l2)%nat.
Proof. unfold count_id. by rewrite filter_app, length_app. Qed.

Lemma count_id_cons n t l :
  count_id n (t :: l) = ((if decide (id t = n) then 1 else 0) + count_id n l)%nat.
Proof. unfold count_id. rewrite filter_cons. by destruct (decide _). Qed.

Lemma count_id_pos n tasks :
  (0 < count_id n tasks)%nat ↔ ∃ t, t ∈ tasks ∧ id t = n.
Proof.
  induction tasks as [|t tasks IH].
  - split; [by inversion 1|]. intros (t & Hin & _). by apply elem_of_nil in Hin.
  - rewrite count_id_cons. destruct (decide (id t = n)) as [Heq|Hne].
    + split; [|lia]. intros _. exists t. split; [left|done].
    + simpl. rewrite IH. split.
      * intros (t' & ? & ?). exists t'. split; [by right|done].
      * intros (t' & Hin & ?). apply elem_of_cons in Hin as [->|?];
          [done|eauto].
Qed.

(** X10: a successful delete takes away exactly one of the tasks that have
    the id read from the parameter and none of any other id; a task with
    that id is still in the store afterwards exactly when at least two tasks
    had it before. *)
Theorem delete_removes_one_of_id (tasks : list Task) (param : string) (n : Z) :
  parseInt param = Some n →
  present param tasks →
  let tasks' := fst (serve (DeleteTask param) tasks) in
  count_id n tasks = S (count_id n tasks')
  ∧ (∀ m, m ≠ n → count_id m tasks' = count_id m tasks)
  ∧ (present param tasks' ↔ (2 ≤ count_id n tasks)%nat).
Proof.
  intros Hn (i & t & E)%find_present tasks'.
  pose proof E as (Hi & Hp & _)%find_Some.
  assert (id t = n) as Hid by congruence.
  assert (tasks' = take i tasks ++ drop (S i) tasks) as Htasks'.
  { unfold tasks'. rewrite (delete_task_found _ _ _ _ E). simpl.
    apply delete_take_drop. }
  assert (∀ m, count_id m tasks
               = ((if decide (id t = m) then 1 else 0) + count_id m tasks')%nat)
    as Hcount.
  { intros m. rewrite <-(take_drop_middle tasks i t Hi) at 1.
    rewrite Htasks', !count_id_app, count_id_cons. lia. }
  split_and!.
  - rewrite (Hcount n). by rewrite decide_True.
  - intros m Hm. rewrite (Hcount m). rewrite decide_False by congruence. done.
  - rewrite (Hcount n), decide_True by done.
    unfold present. rewrite Exists_exists.
    transitivity (0 < count_id n tasks')%nat; [|lia].
    rewrite count_id_pos. rewrite Hn.
    split; intros (t' & ? & ?); exists t'; (split; [done|congruence]).
Qed.

Lemma delete_removes_one_of_id_witness :
  count_id 5 collided = S (count_id 5 (fst (serve (DeleteTask "5") collided)))
  ∧ (∀ m, m ≠ 5 →
       count_id m (fst (serve (DeleteTask "5") collided)) = count_id m collided)
  ∧ (present "5" (fst (serve (DeleteTask "5") collided))
     ↔ (2 ≤ count_id 5 collided)%nat).
Proof.
  apply (delete_removes_one_of_id collided "5" 5);
    [reflexivity | apply (bool_decide_unpack _); vm_compute; exact I].
Defined.

(** X11: no create and no delete alters or reorders the tasks that stay:
    the store before a create is a prefix of the store after it, and the
    store after a delete is the store before it with at most one element
    left out, the others in their order. *)
Theorem create_delete_keep_order (tasks : list Task) (param : string)
    (body : JsVal) :
  tasks `prefix_of` fst (serve (PostTask body) tasks)
  ∧ fst (serve (DeleteTask param) tasks) `sublist_of` tasks.
Proof.
  split.
  - destruct (post_task_cases body tasks) as [->|(s & b & ->)]; [done|].
    by apply prefix_app_r.
  - destruct (delete_task_cases param tasks) as [->|(i & t & _ & ->)]; [done|].
    apply sublist_delete.
Qed.

(** X12: one request changes the number of tasks by at most one: it grows
    by one exactly with a 201, shrinks by one exactly with the 200 of a
    delete, and is the same after every other answer. *)
Theorem length_change (req : Request) (tasks : list Task) :
  let tasks' := fst (serve req tasks) in
  let r := snd (serve req tasks) in
  (status r = 201 → length tasks' = S (length tasks))
  ∧ (is_delete req = true → status r = 200 → S (length tasks') = length tasks)
  ∧ (status r ≠ 201 → is_delete req = false ∨ status r ≠ 200 →
     length tasks' = length tasks).
Proof.
  destruct req as [|param|body|param body|param]; simpl.
  - done.
  - by destruct (get_task_shape param tasks) as [[_ ->]|(i & t & _ & ->)].
  - destruct (post_task_shape body tasks)
      as [[_ ->]|[(_ & _ & ->)|(s & b & _ & _ & ->)]]; simpl; try done.
    split_and!; [|done..]. intros _. rewrite length_app. simpl. lia.
  - destruct (put_task_shape param body tasks)
      as [[_ ->]|(i & t & _ & [[_ ->]|[(_ & _ & ->)|(s & b & _ & _ & ->)]])];
      simpl; try done.
    by rewrite length_insert.
  - destruct (delete_task_shape param tasks) as [[_ ->]|(i & t & E & ->)];
      simpl; [done|].
    apply find_Some in E as (Hi & _). apply lookup_lt_Some in Hi.
    rewrite length_delete by eauto using lookup_lt_is_Some_2.
    split_and!; [done|lia|]. intros _ [?|?]; done.
Qed.

Lemma length_change_witness :
  length (fst (serve (PostTask (payload "X" false)) seed)) = S (length seed)
  ∧ S (length (fst (serve (DeleteTask "2") seed))) = length seed
  ∧ length (fst (serve (DeleteTask "9") seed)) = length seed.
Proof.
  split_and!.
  - apply (proj1 (length_change (PostTask (payload "X" false)) seed)).
    reflexivity.
  - apply (proj1 (proj2 (length_change (DeleteTask "2") seed)));
      reflexivity.
  - apply (proj2 (proj2 (length_change (DeleteTask "9") seed)));
      [discriminate | right; discriminate].
Defined.

(** ** The payload check of create and update *)

Lemma valid_fields body s b :
  get_prop body "title" = JStr s → get_prop body "completed" = JBool b →
  ∃ fields, body = JObj fields
    ∧ fields !! "title" = Some (JStr s)
    ∧ fields !! "completed" = Some (JBool b).
Proof.
  destruct body as [| | | | | |fields]; try done. simpl. intros Ht Hc.
  exists fields. split; [done|].
  destruct (fields !! "title") as [v|]; [|done].
  destruct (fields !! "completed") as [w|]; [|done].
  simpl in *. by subst.
Qed.

(** X13: a create is accepted (201) for exactly the bodies that are JSON
    objects whose [title] is a string and whose [completed] is a boolean,
    the empty string included; and an update of a task that exists is
    accepted (200) for exactly the same bodies. *)
Theorem accepted_payloads (tasks : list Task) (param : string) (body : JsVal) :
  (status (snd (serve (PostTask body) tasks)) = 201 ↔
     ∃ fields s b, body = JObj fields
       ∧ fields !! "title" = Some (JStr s)
       ∧ fields !! "completed" = Some (JBool b))
  ∧ (present param tasks →
     (status (snd (serve (PutTask param body) tasks)) = 200 ↔
        ∃ fields s b, body = JObj fields
          ∧ fields !! "title" = Some (JStr s)
          ∧ fields !! "completed" = Some (JBool b))).
Proof.
  assert (∀ fields s b, body = JObj fields →
            fields !! "title" = Some (JStr s) →
            fields !! "completed" = Some (JBool b) →
            nullish body = false
            ∧ invalid_data (get_prop body "title") (get_prop body "completed")
              = false) as Hvalid.
  { intros fields s b -> Ht Hc. simpl. by rewrite Ht, Hc. }
  split.
  - destruct (post_task_shape body tasks)
      as [[Hn ->]|[(Hn & Hinv & ->)|(s & b & Ht & Hc & ->)]]; simpl.
    + split; [done|]. intros (fields & s & b & Hb & Ht & Hc).
      destruct (Hvalid _ _ _ Hb Ht Hc). congruence.
    + split; [done|]. intros (fields & s & b & Hb & Ht & Hc).
      destruct (Hvalid _ _ _ Hb Ht Hc). congruence.
    + split; [|done]. intros _.
      destruct (valid_fields body s b Ht Hc) as (fields & ?). eauto.
  - intros (i0 & t0 & E0)%find_present.
    destruct (put_task_shape param body tasks)
      as [[E _]|(i & t & _
                 & [[Hn ->]|[(Hn & Hinv & ->)|(s & b & Ht & Hc & ->)]])];
      simpl.
    + congruence.
    + split; [done|]. intros (fields & s & b & Hb & Ht & Hc).
      destruct (Hvalid _ _ _ Hb Ht Hc). congruence.
    + split; [done|]. intros (fields & s & b & Hb & Ht & Hc).
      destruct (Hvalid _ _ _ Hb Ht Hc). congruence.
    + split; [|done]. intros _.
      destruct (valid_fields body s b Ht Hc) as (fields & ?). eauto.
Qed.

Lemma accepted_payloads_witness :
  status (snd (serve (PutTask "2" (payload "" true)) seed)) = 200.
Proof.
  apply (proj2 (accepted_payloads seed "2" (payload "" true))).
  - apply (bool_decide_unpack _). vm_compute. exact I.
  - exists (<["title" := JStr ""]> (<["completed" := JBool true]> ∅)), "", true.
    split_and!; reflexivity.
Defined.

(** ** Reading the path parameter *)

Lemma id_matches_same_parse p1 p2 :
  parseInt p1 = parseInt p2 → id_matches p1 = id_matches p2.
Proof. intros H. unfold id_matches. by rewrite H. Qed.

(** X14: get, update and delete use the path parameter only for the
    integer [parseInt] reads from it: two parameters read alike are answered
    alike, store and response.  White space in front of the parameter is
    skipped, so it makes no difference to any of the three routes. *)
Theorem parameter_read_through_parseInt (tasks : list Task) (body : JsVal)
    (p1 p2 : string) (c : ascii) :
  (parseInt p1 = parseInt p2 →
     serve (GetTask p1) tasks = serve (GetTask p2) tasks
     ∧ serve (PutTask p1 body) tasks = serve (PutTask p2 body) tasks
     ∧ serve (DeleteTask p1) tasks = serve (DeleteTask p2) tasks)
  ∧ (is_white c = true →
     serve (GetTask (String c p1)) tasks = serve (GetTask p1) tasks
     ∧ serve (PutTask (String c p1) body) tasks = serve (PutTask p1 body) tasks
     ∧ serve (DeleteTask (String c p1)) tasks = serve (DeleteTask p1) tasks).
Proof.
  assert (∀ q1 q2, parseInt q1 = parseInt q2 →
     serve (GetTask q1) tasks = serve (GetTask q2) tasks
     ∧ serve (PutTask q1 body) tasks = serve (PutTask q2 body) tasks
     ∧ serve (DeleteTask q1) tasks = serve (DeleteTask q2) tasks) as H.
  { intros q1 q2 Hq%id_matches_same_parse.
    unfold serve, route, get_task, put_task, delete_task. by rewrite Hq. }
  split; [apply H|].
  intros Hc. apply H. unfold parseInt. simpl. by rewrite Hc.
Qed.

Lemma parameter_read_through_parseInt_witness :
  (serve (GetTask "+3") seed = serve (GetTask "3.7") seed
   ∧ serve (PutTask "+3" (JObj ∅)) seed = serve (PutTask "3.7" (JObj ∅)) seed
   ∧ serve (DeleteTask "+3") seed = serve (DeleteTask "3.7") seed)
  ∧ (serve (GetTask " 3") seed = serve (GetTask "3") seed
     ∧ serve (PutTask " 3" (JObj ∅)) seed = serve (PutTask "3" (JObj ∅)) seed
     ∧ serve (DeleteTask " 3") seed = serve (DeleteTask "3") seed).
Proof.
  split.
  - apply (proj1 (parameter_read_through_parseInt seed (JObj ∅) "+3" "3.7" " ")).
    reflexivity.
  - apply (proj2 (parameter_read_through_parseInt seed (JObj ∅) "3" "3" " ")).
    reflexivity.
Defined.

Lemma parseInt_no_number (param : string) :
  starts_with (λ c, is_white c || is_sign c || is_decimal c) param = false →
  parseInt param = None.
Proof.
  destruct param as [|c s]; [done|]. simpl. intros H.
  destruct c as [[] [] [] [] [] [] [] []];
    first [ by vm_compute in H | reflexivity ].
Qed.

(** X15: a path parameter that begins with neither white space, a sign nor
    a decimal digit (the empty parameter included) is answered 404 "Task not
    found" by get, by delete and by update whatever the body, in every
    store, and the store is left unchanged. *)
Theorem non_numeric_parameter_not_found (tasks : list Task) (param : string)
    (body : JsVal) :
  starts_with (λ c, is_white c || is_sign c || is_decimal c) param = false →
  serve (GetTask param) tasks = (tasks, not_found)
  ∧ serve (PutTask param body) tasks = (tasks, not_found)
  ∧ serve (DeleteTask param) tasks = (tasks, not_found).
Proof.
  intros E%parseInt_no_number%(parseInt_NaN_absent _ tasks)%find_None.
  split_and!;
    [by apply get_task_missing|by apply put_task_missing
    |by apply delete_task_missing].
Qed.

Lemma non_numeric_parameter_not_found_witness :
  serve (GetTask "abc") seed = (seed, not_found)
  ∧ serve (PutTask "abc" (payload "X" true)) seed = (seed, not_found)
  ∧ serve (DeleteTask "abc") seed = (seed, not_found).
Proof.
  apply (non_numeric_parameter_not_found seed "abc" (payload "X" true)).
  reflexivity.
Defined.

(** ** How ids evolve *)

Lemma ids_serve_cases req tasks :
  match req with
  | GetTasks | GetTask _ | PutTask _ _ =>
      ids (fst (serve req tasks)) = ids tasks
  | PostTask _ =>
      ids (fst (serve req tasks)) = ids tasks
      ∨ (status (snd (serve req tasks)) = 201
         ∧ ids (fst (serve req tasks))
           = ids tasks ++ [Z.of_nat (length tasks) + 1])
  | DeleteTask _ =>
      ids (fst (serve req tasks)) = ids tasks
      ∨ ∃ i, (i < length tasks)%nat
          ∧ ids (fst (serve req tasks)) = delete i (ids tasks)
  end.
Proof.
  destruct req as [|param|body|param body|param].
  - done.
  - by destruct (get_task_shape param tasks) as [[_ ->]|(i & t & _ & ->)].
  - destruct (post_task_shape body tasks)
      as [[_ ->]|[(_ & _ & ->)|(s & b & _ & _ & ->)]]; simpl; [by left..|].
    right. split; [done|]. unfold ids. by rewrite fmap_app.
  - destruct (put_task_shape param body tasks)
      as [[_ ->]|(i & t & E & [[_ ->]|[(_ & _ & ->)|(s & b & _ & _ & ->)]])];
      simpl; try done.
    apply find_Some in E as (Hi & _).
    unfold ids. rewrite list_fmap_insert. simpl.
    apply list_insert_id. by rewrite list_lookup_fmap, Hi.
  - destruct (delete_task_shape param tasks) as [[_ ->]|(i & t & E & ->)];
      simpl; [by left|].
    right. exists i. apply find_Some in E as (Hi & _).
    split; [by eapply lookup_lt_Some|]. unfold ids. apply list_fmap_delete.
Qed.

(** X16: no request rewrites the id of a stored task, and no client picks
    one: after a listing, a get or an update (whatever its outcome) the ids
    of the store are what they were, in the same order; a create adds at
    most the id [length + 1] at the end; a delete takes out at most one
    id. *)
Theorem ids_never_rewritten (req : Request) (tasks : list Task) :
  match req with
  | GetTasks | GetTask _ | PutTask _ _ =>
      ids (fst (serve req tasks)) = ids tasks
  | PostTask _ =>
      ids (fst (serve req tasks)) = ids tasks
      ∨ (status (snd (serve req tasks)) = 201
         ∧ ids (fst (serve req tasks))
           = ids tasks ++ [Z.of_nat (length tasks) + 1])
  | DeleteTask _ =>
      ids (fst (serve req tasks)) = ids tasks
      ∨ ∃ i, (i < length tasks)%nat
          ∧ ids (fst (serve req tasks)) = delete i (ids tasks)
  end.
Proof. apply ids_serve_cases. Qed.

(** X17: from a store whose ids are pairwise distinct, only a create can
    lead to one where they are not: every request not answered 201 keeps
    them distinct, and a create answered 201 keeps them distinct exactly
    when no task already has the id [length + 1]. *)
Theorem distinct_ids_step (req : Request) (tasks : list Task) :
  NoDup (ids tasks) →
  (status (snd (serve req tasks)) ≠ 201 → NoDup (ids (fst (serve req tasks))))
  ∧ (status (snd (serve req tasks)) = 201 →
     (NoDup (ids (fst (serve req tasks)))
      ↔ ∀ t, t ∈ tasks → id t ≠ Z.of_nat (length tasks) + 1)).
Proof.
  intros Hnd.
  assert (∀ body, status (snd (serve (PostTask body) tasks)) = 201 →
            ids (fst (serve (PostTask body) tasks))
            = ids tasks ++ [Z.of_nat (length tasks) + 1]) as Hpost.
  { intros body. destruct (post_task_shape body tasks)
      as [[_ ->]|[(_ & _ & ->)|(s & b & _ & _ & ->)]]; simpl; try done.
    intros _. unfold ids. by rewrite fmap_app. }
  pose proof (ids_serve_cases req tasks) as Hids.
  destruct req as [|param|body|param body|param].
  - rewrite Hids. by split.
  - rewrite Hids. split; [done|].
    by destruct (get_task_shape param tasks) as [[_ ->]|(i & t & _ & ->)].
  - split.
    + intros Hst. destruct Hids as [->|[? _]]; done.
    + intros Hst. rewrite (Hpost body Hst), NoDup_app. split.
      * intros (_ & Hfresh & _) t Ht Heq.
        apply (Hfresh (id t)); [by apply list_elem_of_fmap_2|].
        rewrite Heq. by left.
      * intros Hfresh. split_and!; [done| |apply NoDup_singleton].
        intros n (t & -> & Ht)%list_elem_of_fmap Hin.
        apply list_elem_of_singleton in Hin. by apply (Hfresh t).
  - rewrite Hids. split; [done|].
    by destruct (put_task_shape param body tasks)
      as [[_ ->]|(i & t & _ & [[_ ->]|[(_ & _ & ->)|(s & b & _ & _ & ->)]])].
  - split.
    + intros _. destruct Hids as [->|(i & _ & ->)]; [done|].
      eapply sublist_NoDup; [exact Hnd|apply sublist_delete].
    + by destruct (delete_task_shape param tasks)
        as [[_ ->]|(i & t & _ & ->)].
Qed.

Lemma distinct_ids_step_witness :
  NoDup (ids (fst (serve (DeleteTask "3") seed)))
  ∧ ¬ NoDup (ids (fst (serve (PostTask (payload "X" false))
                         (fst (serve (DeleteTask "3") seed))))).
Proof.
  assert (NoDup (ids seed)) as Hseed.
  { apply (bool_decide_unpack _). vm_compute. exact I. }
  assert (NoDup (ids (fst (serve (DeleteTask "3") seed)))) as Hdel.
  { apply (proj1 (distinct_ids_step (DeleteTask "3") seed Hseed)).
    discriminate. }
  split; [exact Hdel|].
  intros Hnd.
  apply (proj1 (proj2 (distinct_ids_step (PostTask (payload "X" false))
                         (fst (serve (DeleteTask "3") seed)) Hdel)
                 eq_refl) Hnd (mkTask 5 "Deploy to Server" false));
    [apply (list_elem_of_lookup_2 _ 3%nat); reflexivity | reflexivity].
Defined.

(** ** A create after a delete *)

Lemma numbered_find (tasks : list Task) i t :
  numbered tasks → tasks !! i = Some t →
  find (id_matches (pretty (id t))) tasks = Some (i, t).
Proof.
  intros Hnum Hi. apply find_Some. rewrite parseInt_pretty_exact.
  split_and!; [done..|].
  intros j t' Hj Hlt [= Heq]. apply Hnum in Hi, Hj. lia.
Qed.

(** X18: take a store in which nothing was deleted yet (the task at index
    [i] has id [i + 1]), delete any task but the last under its own id, and
    create a task: the new task gets the id of the last task, which is
    still in the store, so two tasks share an id. *)
Theorem create_after_delete_collides (tasks : list Task) (i : nat) (t : Task)
    (body : JsVal) (s : string) (b : bool) :
  numbered tasks →
  tasks !! i = Some t →
  (S i < length tasks)%nat →
  get_prop body "title" = JStr s →
  get_prop body "completed" = JBool b →
  let tasks1 := fst (serve (DeleteTask (pretty (id t))) tasks) in
  let tasks2 := fst (serve (PostTask body) tasks1) in
  tasks1 = delete i tasks
  ∧ tasks2 = delete i tasks ++ [mkTask (Z.of_nat (length tasks)) s b]
  ∧ (∃ last, last ∈ delete i tasks ∧ id last = Z.of_nat (length tasks))
  ∧ ¬ NoDup (ids tasks2).
Proof.
  intros Hnum Hi Hlen Ht Hc tasks1 tasks2.
  assert (tasks1 = delete i tasks) as H1.
  { unfold tasks1. by rewrite (delete_task_found _ _ _ _ (numbered_find _ _ _ Hnum Hi)). }
  assert (length (delete i tasks) = (length tasks - 1)%nat) as Hlen1.
  { by apply length_delete. }
  assert (tasks2 = delete i tasks ++ [mkTask (Z.of_nat (length tasks)) s b])
    as H2.
  { unfold tasks2, serve, route. rewrite H1, (post_task_valid _ _ _ _ Ht Hc).
    simpl. rewrite Hlen1. do 3 f_equal. lia. }
  destruct (lookup_lt_is_Some_2 tasks (length tasks - 1)) as [last Hlast];
    [lia|].
  assert (delete i tasks !! (length tasks - 2)%nat = Some last) as Hlast1.
  { rewrite list_lookup_delete_ge by lia. rewrite <-Hlast. f_equal. lia. }
  assert (id last = Z.of_nat (length tasks)) as Hid.
  { apply Hnum in Hlast. lia. }
  split_and!; [done|done| |].
  - exists last. split; [by eapply list_elem_of_lookup_2|done].
  - rewrite H2. intros Hnd.
    pose proof (proj1 (NoDup_alt _) Hnd (length tasks - 2)%nat
                  (length tasks - 1)%nat (Z.of_nat (length tasks))) as Halt.
    unfold ids in Halt. rewrite !list_lookup_fmap in Halt.
    rewrite lookup_app_l in Halt by lia.
    rewrite lookup_app_r in Halt by lia.
    rewrite Hlast1, Hlen1, Nat.sub_diag in Halt. simpl in Halt.
    rewrite Hid in Halt. specialize (Halt eq_refl eq_refl). lia.
Qed.

Lemma create_after_delete_collides_witness :
  ¬ NoDup (ids (fst (serve (PostTask (payload "X" false))
                       (fst (serve (DeleteTask "3") seed))))).
Proof.
  apply (create_after_delete_collides seed 2
           (mkTask 3 "Test API with Postman" true)
           (payload "X" false) "X" false);
    [|reflexivity|simpl; lia|reflexivity|reflexivity].
  intros i t Hi. do 5 (destruct i as [|i]; [by simplify_eq/=|]). done.
Defined.

(** X19: in such a store, deleting the last task and then creating a task
    gives the new task the id the deleted one had; the task at index [i]
    has id [i + 1] again. *)
Theorem create_after_delete_last_reuses_id (tasks : list Task) (t : Task)
    (body : JsVal) (s : string) (b : bool) :
  numbered tasks →
  last tasks = Some t →
  get_prop body "title" = JStr s →
  get_prop body "completed" = JBool b →
  let tasks1 := fst (serve (DeleteTask (pretty (id t))) tasks) in
  let tasks2 := fst (serve (PostTask body) tasks1) in
  tasks2 = tasks1 ++ [mkTask (id t) s b]
  ∧ length tasks2 = length tasks
  ∧ numbered tasks2.
Proof.
  intros Hnum Hlast Ht Hc tasks1 tasks2.
  rewrite last_lookup in Hlast.
  assert (0 < length tasks)%nat as Hpos.
  { apply lookup_lt_Some in Hlast. lia. }
  assert (tasks1 = delete (pred (length tasks)) tasks) as H1.
  { unfold tasks1.
    by rewrite (delete_task_found _ _ _ _ (numbered_find _ _ _ Hnum Hlast)). }
  assert (length tasks1 = (length tasks - 1)%nat) as Hlen1.
  { rewrite H1. by apply length_delete. }
  assert (id t = Z.of_nat (length tasks)) as Hid.
  { apply Hnum in Hlast. lia. }
  assert (tasks2 = tasks1 ++ [mkTask (id t) s b]) as H2.
  { unfold tasks2, serve, route. rewrite (post_task_valid _ _ _ _ Ht Hc).
    simpl. rewrite Hlen1, Hid. do 3 f_equal. lia. }
  split_and!; [done| |].
  - rewrite H2, length_app, Hlen1. simpl. lia.
  - rewrite H2. intros j t' [Hj|[Hge Hj]]%lookup_app_Some.
    + rewrite H1 in Hj. rewrite list_lookup_delete_lt in Hj; [by apply Hnum|].
      apply lookup_lt_Some in Hj. rewrite <-H1, Hlen1 in Hj. lia.
    + destruct (j - length tasks1)%nat as [|k] eqn:Ek; [|done].
      simplify_eq/=. lia.
Qed.

Lemma create_after_delete_last_reuses_id_witness :
  fst (serve (PostTask (payload "X" false)) (fst (serve (DeleteTask "5") seed)))
  = fst (serve (DeleteTask "5") seed) ++ [mkTask 5 "X" false].
Proof.
  apply (create_after_delete_last_reuses_id seed
           (mkTask 5 "Deploy to Server" false) (payload "X" false) "X" false);
    [|reflexivity..].
  intros i t Hi. do 5 (destruct i as [|i]; [by simplify_eq/=|]). done.
Defined.

(** X20: in a store whose ids are pairwise distinct, a task that was
    deleted is gone for all three routes: after the 200 of the delete, a
    get, a second delete and an update (whatever its body) with the same
    parameter are all answered 404 "Task not found", and the ids are still
    pairwise distinct. *)
Theorem delete_then_gone_when_ids_distinct (tasks : list Task)
    (param : string) (body : JsVal) :
  NoDup (ids tasks) →
  present param tasks →
  let tasks' := fst (serve (DeleteTask param) tasks) in
  status (snd (serve (DeleteTask param) tasks)) = 200
  ∧ serve (GetTask param) tasks' = (tasks', not_found)
  ∧ serve (DeleteTask param) tasks' = (tasks', not_found)
  ∧ serve (PutTask param body) tasks' = (tasks', not_found)
  ∧ NoDup (ids tasks').
Proof.
  intros Hnd Hp tasks'.
  pose proof (delete_unique_id_gone tasks param Hnd Hp) as E%find_None.
  destruct (find_present _ _ Hp) as (i & t & Ef).
  split_and!.
  - by rewrite (delete_task_found _ _ _ _ Ef).
  - by apply get_task_missing.
  - by apply delete_task_missing.
  - by apply put_task_missing.
  - unfold tasks'. rewrite (delete_task_found _ _ _ _ Ef). simpl.
    unfold ids. rewrite list_fmap_delete.
    eapply sublist_NoDup; [exact Hnd|apply sublist_delete].
Qed.

Lemma delete_then_gone_when_ids_distinct_witness :
  status (snd (serve (DeleteTask "3") seed)) = 200
  ∧ serve (GetTask "3") (fst (serve (DeleteTask "3") seed))
    = (fst (serve (DeleteTask "3") seed), not_found)
  ∧ serve (DeleteTask "3") (fst (serve (DeleteTask "3") seed))
    = (fst (serve (DeleteTask "3") seed), not_found)
  ∧ serve (PutTask "3" (payload "X" true)) (fst (serve (DeleteTask "3") seed))
    = (fst (serve (DeleteTask "3") seed), not_found)
  ∧ NoDup (ids (fst (serve (DeleteTask "3") seed))).
Proof.
  apply (delete_then_gone_when_ids_distinct seed "3" (payload "X" true));
    apply (bool_decide_unpack _); vm_compute; exact I.
Defined.
